(** * github-stats: the user list and the stats fetch of [src/App.tsx]

    A shallow embedding of the non-presentational part of the [App]
    component: [fetchUserStats], [handleAddUser], [handleRemoveUser], the
    effect that pre-populates the list from the environment and the effect
    that refetches every user when the date range changes.

    Conventions of the embedding
    - a JavaScript string is a [string] of 8-bit code units (the Latin-1
      range of a UTF-16 string); [toLowerCase] and [trim] are the built-ins
      restricted to that range;
    - a value produced by [res.json()] is a [JsVal]; reading a property and
      testing truthiness follow the language ([get], [truthy]);
    - an exception is explicit ([Exc]); an [async] function is cut at its
      [await] on the network into the part that runs at the call and the
      part that runs when the response arrives;
    - React state is the record [State]; a functional update
      [setUsers(prev => ...)] is a function applied to the state that is
      current when the update is applied. *)

From Stdlib Require Import ZArith Lia.
From stdpp Require Import base list strings.
From Stdlib Require Import Ascii String DecimalString.

Set Warnings "-register-all".

Local Open Scope string_scope.
Local Open Scope list_scope.
Local Open Scope Z_scope.

(** ** Exceptions *)

Inductive JsError := TypeError | RangeError | SyntaxError.

Inductive Exc (A : Type) :=
| Return (a : A)
| Throw (e : JsError).
Arguments Return {A} a.
Arguments Throw {A} e.

Definition bindExc {A B} (m : Exc A) (k : A -> Exc B) : Exc B :=
  match m with
  | Return a => k a
  | Throw e => Throw e
  end.

#[global] Instance exc_ret : MRet Exc := fun _ a => Return a.
#[global] Instance exc_bind : MBind Exc := fun _ _ k m => bindExc m k.

(** ** JavaScript values, as [JSON.parse] builds them *)

Inductive JsVal :=
| JUndefined
| JNull
| JBool (b : bool)
| JNum (n : Z)
| JStr (s : string)
| JArr (items : list JsVal)
| JObj (fields : list (string * JsVal)).

(** The binding of [k] in the fields of an object; a parsed object has
    each key once. *)
Fixpoint lookupField (k : string) (fields : list (string * JsVal)) : option JsVal :=
  match fields with
  | [] => None
  | (k', v) :: rest => if String.eqb k k' then Some v else lookupField k rest
  end.

(** [v.k] for a property name [k] that no prototype defines and that is no
    array index (the program reads [errors], [data], [user] and
    [contributionsCollection]): a [TypeError] on [undefined] and [null],
    the field of an object, [undefined] on anything else. *)
Definition get (v : JsVal) (k : string) : Exc JsVal :=
  match v with
  | JUndefined | JNull => Throw TypeError
  | JObj fields => Return (default JUndefined (lookupField k fields))
  | JBool _ | JNum _ | JStr _ | JArr _ => Return JUndefined
  end.

(** ToBoolean. Numbers are carried as integers, as the contribution
    counters are; every other non-zero number is truthy too. *)
Definition truthy (v : JsVal) : bool :=
  match v with
  | JUndefined | JNull => false
  | JBool b => b
  | JNum n => negb (n =? 0)
  | JStr s => negb (String.eqb s "")
  | JArr _ | JObj _ => true
  end.

(** [!s] is false for a string exactly when it is not empty. *)
Definition truthyStr (s : string) : bool := negb (String.eqb s "").

(** ** Strings *)

Definition lowerCode (n : N) : N :=
  if ((65 <=? n) && (n <=? 90))%N then (n + 32)%N
  else if ((192 <=? n) && (n <=? 222) && negb (n =? 215))%N then (n + 32)%N
  else n.

Fixpoint toLowerCase (s : string) : string :=
  match s with
  | EmptyString => EmptyString
  | String c rest => String (ascii_of_N (lowerCode (N_of_ascii c))) (toLowerCase rest)
  end.

(** WhiteSpace and LineTerminator code units below 256. *)
Definition isWhiteSpace (c : ascii) : bool :=
  let n := N_of_ascii c in
  ((9 <=? n) && (n <=? 13) || (n =? 32) || (n =? 160))%N.

Fixpoint trimStart (s : string) : string :=
  match s with
  | EmptyString => EmptyString
  | String c rest => if isWhiteSpace c then trimStart rest else s
  end.

Fixpoint trimEnd (s : string) : string :=
  match s with
  | EmptyString => EmptyString
  | String c rest =>
      match trimEnd rest with
      | EmptyString => if isWhiteSpace c then EmptyString else String c EmptyString
      | t => String c t
      end
  end.

Definition trim (s : string) : string := trimEnd (trimStart s).

(** [s.split(sep)] for a separator of one code unit. *)
Fixpoint split (sep : ascii) (s : string) : list string :=
  match s with
  | EmptyString => [EmptyString]
  | String c rest =>
      if Ascii.eqb c sep then EmptyString :: split sep rest
      else match split sep rest with
           | piece :: pieces => String c piece :: pieces
           | [] => [String c EmptyString]
           end
  end.

(** [pieces.join(sep)] *)
Fixpoint join (sep : ascii) (pieces : list string) : string :=
  match pieces with
  | [] => EmptyString
  | [p] => p
  | p :: rest => p +:+ String sep (join sep rest)
  end.

(** ** Dates *)

(** A [Date] object holds a time value in milliseconds since the epoch, or
    NaN: the Invalid Date, which is an object like any other and so truthy. *)
Inductive Date :=
| ValidDate (t : Z)
| InvalidDate.

Definition digit (n : Z) : ascii := ascii_of_N (48 + Z.to_N (n mod 10)).

(** The last [width] decimal digits of [n], zero padded. *)
Fixpoint pad (width : nat) (n : Z) : string :=
  match width with
  | O => EmptyString
  | S w => pad w (n / 10) +:+ String (digit n) EmptyString
  end.

Definition msPerDay : Z := 86400000.

(** Year, month and day of the proleptic Gregorian calendar for a number of
    days since 1970-01-01. *)
Definition civilFromDays (days : Z) : Z * Z * Z :=
  let z := days + 719468 in
  let era := z / 146097 in
  let doe := z - era * 146097 in
  let yoe := (doe - doe / 1460 + doe / 36524 - doe / 146096) / 365 in
  let doy := doe - (365 * yoe + yoe / 4 - yoe / 100) in
  let mp := (5 * doy + 2) / 153 in
  let d := doy - (153 * mp + 2) / 5 + 1 in
  let m := if mp <? 10 then mp + 3 else mp - 9 in
  let y := yoe + era * 400 + (if m <=? 2 then 1 else 0) in
  (y, m, d).

Definition isoYear (y : Z) : string :=
  if (0 <=? y) && (y <=? 9999) then pad 4 y
  else (if y <? 0 then "-" else "+") +:+ pad 6 (Z.abs y).

Definition isoString (t : Z) : string :=
  let '(y, m, d) := civilFromDays (t / msPerDay) in
  let r := t mod msPerDay in
  isoYear y +:+ "-" +:+ pad 2 m +:+ "-" +:+ pad 2 d +:+ "T" +:+
  pad 2 (r / 3600000) +:+ ":" +:+ pad 2 (r / 60000 mod 60) +:+ ":" +:+
  pad 2 (r / 1000 mod 60) +:+ "." +:+ pad 3 (r mod 1000) +:+ "Z".

(** [d.toISOString()] throws a [RangeError] on the Invalid Date. *)
Definition toISOString (d : Date) : Exc string :=
  match d with
  | ValidDate t => Return (isoString t)
  | InvalidDate => Throw RangeError
  end.

(** ** The environment and the remote *)

(** [import.meta.env]: a variable that is not configured is [undefined]. *)
Record Env := {
  VITE_GITHUB_TOKEN : option string;
  VITE_GITHUB_USERS : option string
}.

(** The POST to the GraphQL endpoint, as the values interpolated into its
    headers and its query. *)
Record Request := {
  authorization : option string;
  login : string;
  from_ : string;
  to_ : string
}.

(** What the remote call does: [fetch] rejects, or it yields a response
    whose [json()] rejects or yields the parsed body. *)
Inductive RemoteOutcome :=
| FetchRejects (e : JsError)
| Responds (body : Exc JsVal).

(** ** [fetchUserStats] *)

Record UserStats := {
  username : string;
  stats : option JsVal;
  error : option string
}.

(** How a promise is settled. *)
Inductive Settlement (A : Type) :=
| Fulfilled (a : A)
| Rejected (e : JsError).
Arguments Fulfilled {A} a.
Arguments Rejected {A} e.

(** An [async] call up to its first [await] on the network: it has settled
    by then, or a request is out and the rest runs on its outcome. *)
Inductive Started (A : Type) :=
| Settled (r : Settlement A)
| Suspended (rq : Request).
Arguments Settled {A} r.
Arguments Suspended {A} rq.

(** [x.toISOString().split('T')[0] + suffix] *)
Definition isoDay (d : Date) (suffix : string) : Exc string :=
  iso ← toISOString d;
  mret (default "undefined" (head (split "T" iso)) +:+ suffix).

(** Lines 35-58: the guard, the two ISO strings (outside the [try]) and the
    call of [fetch]. *)
Definition fetchUserStats_start (env : Env) (username : string)
    (from to : option Date) : Started UserStats :=
  match from, to with
  | Some from, Some to =>
      if truthyStr username then
        match isoDay from "T00:00:00Z" with
        | Throw e => Settled (Rejected e)
        | Return fromIso =>
            match isoDay to "T23:59:59Z" with
            | Throw e => Settled (Rejected e)
            | Return toIso =>
                Suspended
                  {| authorization :=
                       match VITE_GITHUB_TOKEN env with
                       | Some tok => if truthyStr tok then Some ("Bearer " +:+ tok) else None
                       | None => None
                       end;
                     login := username; from_ := fromIso; to_ := toIso |}
            end
        end
      else Settled (Fulfilled {| username := username; stats := None;
                                 error := Some "Missing date or username" |})
  | _, _ => Settled (Fulfilled {| username := username; stats := None;
                                  error := Some "Missing date or username" |})
  end.

(** Lines 59-67: the body of the [try] from [res.json()] on. *)
Definition tryBody (username : string) (data : JsVal) : Exc UserStats :=
  errors ← get data "errors";
  failed ← (if truthy errors then mret true
            else d ← get data "data"; user ← get d "user"; mret (negb (truthy user)));
  if failed : bool then
    mret {| username := username; stats := None;
            error := Some "User not found or API error." |}
  else
    d ← get data "data";
    user ← get d "user";
    collection ← get user "contributionsCollection";
    mret {| username := username; stats := Some collection; error := None |}.

(** Lines 38-70: the [try] with its [catch], given what the remote did. *)
Definition fetchUserStats_resume (username : string) (o : RemoteOutcome) : UserStats :=
  let attempt :=
    match o with
    | FetchRejects e => Throw e
    | Responds body => data ← body; tryBody username data
    end in
  match attempt with
  | Return r => r
  | Throw _ => {| username := username; stats := None;
                  error := Some "Network or API error." |}
  end.

(** The whole call against a remote that answers [o]: how the returned
    promise settles, and the requests it sent. *)
Definition fetchUserStats (env : Env) (username : string) (from to : option Date)
    (o : RemoteOutcome) : Settlement UserStats * list Request :=
  match fetchUserStats_start env username from to with
  | Settled r => (r, [])
  | Suspended rq => (Fulfilled (fetchUserStats_resume username o), [rq])
  end.

(** A field is set when reading it does not give [undefined]. *)
Definition hasStats (u : UserStats) : bool :=
  match stats u with
  | None | Some JUndefined => false
  | Some _ => true
  end.

Definition hasError (u : UserStats) : bool :=
  match error u with
  | None => false
  | Some _ => true
  end.

(** ** [Promise.all] *)

(** The values array of [Promise.all] (a hole is an element that has not
    fulfilled yet), its count of elements still awaited, and how its own
    promise has settled once it has. *)
Record PromiseAll := {
  values : list (option UserStats);
  remainingElementsCount : nat;
  outcome : option (Settlement (list UserStats))
}.

Definition promiseAll_new (n : nat) : PromiseAll :=
  {| values := replicate n None;
     remainingElementsCount := n;
     outcome := match n with O => Some (Fulfilled []) | S _ => None end |}.

(** The resolve element function of position [i]: it writes [x] at its own
    index, counts down, and fulfils the promise with the values array when
    nothing is awaited any more. A second call for a position is ignored. *)
Definition resolveElement (i : nat) (x : UserStats) (p : PromiseAll) : PromiseAll :=
  match values p !! i with
  | Some None =>
      let vs := <[i := Some x]> (values p) in
      let n := pred (remainingElementsCount p) in
      {| values := vs;
         remainingElementsCount := n;
         outcome :=
           match outcome p, n with
           | None, O => Some (Fulfilled (omap id vs))
           | o, _ => o
           end |}
  | _ => p
  end.

(** An element that rejects rejects the whole, unless it has settled. *)
Definition rejectElement (e : JsError) (p : PromiseAll) : PromiseAll :=
  {| values := values p;
     remainingElementsCount := remainingElementsCount p;
     outcome := match outcome p with None => Some (Rejected e) | o => o end |}.

(** ** The component's state *)

(** The five [useState] variables; [usernameInput] is the variable
    [username] of the text field. *)
Record State := {
  fromDate : option Date;
  toDate : option Date;
  usernameInput : string;
  users : list UserStats;
  loading : bool
}.

Definition initialState : State :=
  {| fromDate := None; toDate := None; usernameInput := ""; users := []; loading := false |}.

Definition setFromDate (d : option Date) (s : State) : State :=
  {| fromDate := d; toDate := toDate s; usernameInput := usernameInput s;
     users := users s; loading := loading s |}.

Definition setToDate (d : option Date) (s : State) : State :=
  {| fromDate := fromDate s; toDate := d; usernameInput := usernameInput s;
     users := users s; loading := loading s |}.

Definition setUsername (v : string) (s : State) : State :=
  {| fromDate := fromDate s; toDate := toDate s; usernameInput := v;
     users := users s; loading := loading s |}.

Definition setLoading (b : bool) (s : State) : State :=
  {| fromDate := fromDate s; toDate := toDate s; usernameInput := usernameInput s;
     users := users s; loading := b |}.

(** [setUsers(f)] with an updater: [f] is applied to the list of the state
    the update is applied to. *)
Definition setUsers (f : list UserStats -> list UserStats) (s : State) : State :=
  {| fromDate := fromDate s; toDate := toDate s; usernameInput := usernameInput s;
     users := f (users s); loading := loading s |}.

(** [u.username.toLowerCase() === name.toLowerCase()] *)
Definition sameUser (name : string) (u : UserStats) : Prop :=
  toLowerCase (username u) = toLowerCase name.

#[global] Instance sameUser_dec name u : Decision (sameUser name u) :=
  decide (toLowerCase (username u) = toLowerCase name).

(** ** [handleAddUser] *)

(** Lines 78-82: the updater that appends unless the name is in the list. *)
Definition addUpdater (name : string) (newUserStats : UserStats)
    (prev : list UserStats) : list UserStats :=
  if decide (Exists (sameUser name) prev) then prev else prev ++ [newUserStats].

(** Lines 78-84: what runs after the [await], on the state of that time. *)
Definition handleAddUser_finish (name : string) (newUserStats : UserStats)
    (s : State) : State :=
  setUsername "" (setLoading false (setUsers (addUpdater name newUserStats) s)).

(** ** [handleRemoveUser] *)

Definition handleRemoveUser (name : string) (s : State) : State :=
  if truthyStr name then
    setUsers (fun prev => filter (fun u => ¬ sameUser name u) prev) s
  else s.

(** ** The effect that pre-populates the list *)

(** Line 95: the names of [VITE_GITHUB_USERS]. *)
Definition envUsers (env : Env) : list string :=
  filter (fun u => truthyStr u = true)
    (map trim (split "," (default "" (VITE_GITHUB_USERS env)))).

(** Lines 97-104: the updater of the effect. *)
Definition seedUpdater (names : list string) (prev : list UserStats) : list UserStats :=
  let existing := map (fun u => toLowerCase (username u)) prev in
  let newUsers :=
    map (fun name => {| username := name; stats := None; error := None |})
      (filter (fun u => toLowerCase u ∉ existing) names) in
  prev ++ newUsers.

Definition seedEffect (env : Env) (s : State) : State :=
  if decide (0 < List.length (envUsers env))%nat then setUsers (seedUpdater (envUsers env)) s
  else s.

(** ** The application: state, suspended handlers, requests sent *)

(** A handler suspended at an [await]: [handleAddUser] inside its call of
    [fetchUserStats] for [name]; or the [Promise.all] of the refetch effect,
    where position [i] of [waiting] holds the username of a call that is
    still awaiting the network. *)
Inductive Task :=
| Adding (name : string)
| Refreshing (waiting : list (option string)) (all : PromiseAll)
| Finished.

Record App := {
  state : State;
  tasks : list Task;
  sent : list Request
}.

(** Lines 74-85. The closure reads the state of the render it was made in,
    which is the current one when the event is handled. When
    [fetchUserStats] rejects, nothing after the [await] runs. *)
Definition handleAddUser (env : Env) (a : App) : App :=
  let s := state a in
  let name := usernameInput s in
  match fromDate s, toDate s with
  | Some _, Some _ =>
      if truthyStr name then
        let s1 := setLoading true s in
        match fetchUserStats_start env name (fromDate s) (toDate s) with
        | Settled (Fulfilled newUserStats) =>
            {| state := handleAddUser_finish name newUserStats s1;
               tasks := tasks a; sent := sent a |}
        | Settled (Rejected _) =>
            {| state := s1; tasks := tasks a; sent := sent a |}
        | Suspended rq =>
            {| state := s1; tasks := tasks a ++ [Adding name]; sent := sent a ++ [rq] |}
        end
      else a
  | _, _ => a
  end.

(** Lines 114-115: [.then(updatedUsers => setUsers(updatedUsers))] and
    [.finally(() => setLoading(false))]. *)
Definition refreshReactions (o : Settlement (list UserStats)) (s : State) : State :=
  match o with
  | Fulfilled updatedUsers => setLoading false (setUsers (fun _ => updatedUsers) s)
  | Rejected _ => setLoading false s
  end.

(** The reactions of the calls that had settled when [Promise.all] was
    given them run first, by position; [i] is the position of the head. *)
Fixpoint settleFrom (i : nat) (ps : list (Started UserStats)) (acc : PromiseAll)
    : PromiseAll :=
  match ps with
  | [] => acc
  | p :: rest =>
      settleFrom (S i) rest
        match p with
        | Settled (Fulfilled r) => resolveElement i r acc
        | Settled (Rejected e) => rejectElement e acc
        | Suspended _ => acc
        end
  end.

Definition settleAtStart (ps : list (Started UserStats)) : PromiseAll :=
  settleFrom 0 ps (promiseAll_new (List.length ps)).

Definition requestsOf (ps : list (Started UserStats)) : list Request :=
  omap (fun p => match p with Suspended rq => Some rq | Settled _ => None end) ps.

(** Lines 110-117, run after a render that saw the state [snap]. *)
Definition refetchEffect (env : Env) (snap : State) (a : App) : App :=
  match fromDate snap, toDate snap, users snap with
  | Some _, Some _, _ :: _ =>
      let call u := fetchUserStats_start env (username u) (fromDate snap) (toDate snap) in
      let ps := map call (users snap) in
      let waiting :=
        map (fun u => match call u with
                      | Suspended _ => Some (username u)
                      | Settled _ => None
                      end) (users snap) in
      let all := settleAtStart ps in
      let s1 := setLoading true (state a) in
      {| state := match outcome all with
                  | Some o => refreshReactions o s1
                  | None => s1
                  end;
         tasks := tasks a ++ [Refreshing waiting all];
         sent := sent a ++ requestsOf ps |}
  | _, _, _ => a
  end.

(** The first render: both effects run on the initial state; the update of
    the first one is applied afterwards. *)
Definition mount (env : Env) : App :=
  refetchEffect env initialState
    {| state := seedEffect env initialState; tasks := []; sent := [] |}.

(** What can happen next: the user picks a date, types, asks to add the
    typed name or to remove a name; or the remote call of position [i] of
    the suspended handler [k] completes with [o]. *)
Inductive Event :=
| ChangeFrom (d : option Date)
| ChangeTo (d : option Date)
| TypeUsername (v : string)
| AddUser
| RemoveUser (name : string)
| Deliver (k i : nat) (o : RemoteOutcome).

Definition withState (f : State -> State) (a : App) : App :=
  {| state := f (state a); tasks := tasks a; sent := sent a |}.

Definition deliver (k i : nat) (o : RemoteOutcome) (a : App) : App :=
  match tasks a !! k with
  | Some (Adding name) =>
      {| state := handleAddUser_finish name (fetchUserStats_resume name o) (state a);
         tasks := <[k := Finished]> (tasks a);
         sent := sent a |}
  | Some (Refreshing waiting all) =>
      match waiting !! i with
      | Some (Some name) =>
          let all' := resolveElement i (fetchUserStats_resume name o) all in
          {| state := match outcome all, outcome all' with
                      | None, Some r => refreshReactions r (state a)
                      | _, _ => state a
                      end;
             tasks := <[k := Refreshing (<[i := None]> waiting) all']> (tasks a);
             sent := sent a |}
      | _ => a
      end
  | _ => a
  end.

Definition step (env : Env) (a : App) (ev : Event) : App :=
  match ev with
  | ChangeFrom d =>
      let a1 := withState (setFromDate d) a in refetchEffect env (state a1) a1
  | ChangeTo d =>
      let a1 := withState (setToDate d) a in refetchEffect env (state a1) a1
  | TypeUsername v => withState (setUsername v) a
  | AddUser => handleAddUser env a
  | RemoveUser name => withState (handleRemoveUser name) a
  | Deliver k i o => deliver k i o a
  end.

Definition run (env : Env) (a : App) (evs : list Event) : App :=
  fold_left (step env) evs a.

(** A state the application can be in: after the first render and any
    sequence of events. *)
Definition reachable (env : Env) (a : App) : Prop :=
  exists evs, a = run env (mount env) evs.

(** [handleAddUser] with its remote call answered at once by [o]. *)
Definition addUser (env : Env) (o : RemoteOutcome) (a : App) : App :=
  deliver (List.length (tasks a)) 0 o (handleAddUser env a).

(** The refetch effect on the current state, with the call of position [i]
    answered by [os i], the answers arriving in the order [schedule]. *)
Definition refreshAll (env : Env) (os : nat -> RemoteOutcome) (schedule : list nat)
    (a : App) : App :=
  fold_left (fun acc i => deliver (List.length (tasks a)) i (os i) acc) schedule
    (refetchEffect env (state a) a).

(** The list is free of duplicates, names compared in lower case. *)
Definition uniqueUsers (l : list UserStats) : Prop :=
  NoDup (map (fun u => toLowerCase (username u)) l).

(** The example values used below. *)
Definition noEnv : Env := {| VITE_GITHUB_TOKEN := None; VITE_GITHUB_USERS := None |}.
Definition jan01 : Date := ValidDate 1704067200000.
Definition jan31 : Date := ValidDate 1706659200000.
Definition withRange (l : list UserStats) (name : string) : App :=
  {| state := {| fromDate := Some jan01; toDate := Some jan31;
                 usernameInput := name; users := l; loading := false |};
     tasks := []; sent := [] |}.
Definition counters (n : Z) : JsVal :=
  JObj [("totalCommitContributions", JNum n); ("totalIssueContributions", JNum 0);
        ("totalPullRequestContributions", JNum 0);
        ("totalPullRequestReviewContributions", JNum 0);
        ("totalRepositoryContributions", JNum 0)].
Definition found (n : Z) : RemoteOutcome :=
  Responds (Return (JObj [("data", JObj [("user",
    JObj [("contributionsCollection", counters n)])])])).
Definition nullUser : RemoteOutcome :=
  Responds (Return (JObj [("data", JObj [("user", JNull)])])).

(** The list seeded from "alice, bob", with the range of January 2024. *)
Definition aliceAndBob : App :=
  withRange [{| username := "alice"; stats := None; error := None |};
             {| username := "bob"; stats := None; error := None |}] "".

(** Alice has five commits; there is no Bob. *)
Definition aliceFoundBobNot (i : nat) : RemoteOutcome :=
  match i with
  | O => found 5
  | S _ => nullUser
  end.

(** A seed list that names Alice twice. *)
Definition aliceTwice : Env :=
  {| VITE_GITHUB_TOKEN := None; VITE_GITHUB_USERS := Some "alice,Alice" |}.

(** Carol typed into the field, no date picked. *)
Definition carolWithoutRange : App :=
  {| state := setUsername "carol" initialState; tasks := []; sent := [] |}.

(** "Alice" typed while alice is in the list. *)
Definition aliceAgain : App :=
  withRange [{| username := "alice"; stats := None; error := None |}] "Alice".

(** "BOB" typed while alice and Bob are in the list. *)
Definition bobAgain : App :=
  withRange [{| username := "alice"; stats := None; error := None |};
             {| username := "Bob"; stats := None; error := None |}] "BOB".

(** ** Notions used in the statements *)

Definition validationError (name : string) : UserStats :=
  {| username := name; stats := None; error := Some "Missing date or username" |}.

Definition transportError (name : string) : UserStats :=
  {| username := name; stats := None; error := Some "Network or API error." |}.

Definition remoteError (name : string) : UserStats :=
  {| username := name; stats := None; error := Some "User not found or API error." |}.

(** [Object.hasOwn(v, k)] for a parsed value. *)
Definition hasOwn (v : JsVal) (k : string) : bool :=
  match v with
  | JObj fields => bool_decide (is_Some (lookupField k fields))
  | _ => false
  end.

(** A date of the range is unset or a calendar date. *)
Definition calendarDate (d : option Date) : Prop := d ≠ Some InvalidDate.

(** The response parses, reports no [errors], has a truthy [data.user], and
    reading [contributionsCollection] from it gives [undefined]. *)
Definition userWithoutCollection (o : RemoteOutcome) : Prop :=
  exists data errors d user,
    o = Responds (Return data) ∧
    get data "errors" = Return errors ∧ truthy errors = false ∧
    get data "data" = Return d ∧
    get d "user" = Return user ∧ truthy user = true ∧
    get user "contributionsCollection" = Return JUndefined.

(** The entry of a name that has not been fetched. *)
Definition unfetched (name : string) : UserStats :=
  {| username := name; stats := None; error := None |}.

(** ** The cards *)

(** An array index as [+] writes it after a string. *)
Definition indexString (idx : nat) : string := NilZero.string_of_uint (Nat.to_uint idx).

(** Line 165: [key={user.username + idx}]. *)
Definition cardKey (idx : nat) (user : UserStats) : string :=
  username user +:+ indexString idx.

(** Line 164: the keys of the cards of [users.map((user, idx) => ...)]. *)
Definition cardKeys (l : list UserStats) : list string := imap cardKey l.

(** Eleven different names, the first "a1" and the last "a". *)
Definition elevenUsers : list UserStats :=
  map unfetched ["a1"; "b"; "c"; "d"; "e"; "f"; "g"; "h"; "i"; "j"; "a"].

(** Seeding in the words of the specification: the pieces between the
    commas, trimmed, the empty ones discarded; each name that is not in the
    list (compared in lower case) is appended as an entry with neither
    stats nor error. *)
Definition seedFromStaticList (names : string) (prev : list UserStats) : list UserStats :=
  prev ++
  map unfetched
    (filter (fun name => ¬ Exists (sameUser name) prev)
       (filter (fun piece => piece ≠ "") (map trim (split "," names)))).

(** The code unit [c] occurs in [s]. *)
Fixpoint occurs (c : ascii) (s : string) : Prop :=
  match s with
  | EmptyString => False
  | String c' rest => c' = c ∨ occurs c rest
  end.

(** The number of holes of a values array. *)
Fixpoint holes (vs : list (option UserStats)) : nat :=
  match vs with
  | [] => O
  | None :: rest => S (holes rest)
  | Some _ :: rest => holes rest
  end.

(** What [Promise.all] keeps true of itself as long as no element rejects:
    it awaits as many elements as its array has holes, and it has fulfilled,
    with the array, exactly when there is none. *)
Definition consistent (p : PromiseAll) : Prop :=
  remainingElementsCount p = holes (values p) ∧
  outcome p = match holes (values p) with
              | O => Some (Fulfilled (omap id (values p)))
              | S _ => None
              end.

(** What the call for the entry [u] at position [i] returns when the remote
    answers it with [os i]. *)
Definition fetchResult (env : Env) (from to : option Date) (os : nat -> RemoteOutcome)
    (i : nat) (u : UserStats) : UserStats :=
  match fetchUserStats_start env (username u) from to with
  | Settled (Fulfilled r) => r
  | _ => fetchUserStats_resume (username u) (os i)
  end.

(** Position [i] of the refetch of the list, for the entry [u]: it holds
    the result of its call, or it is a hole whose call is waiting and has not
    been answered. *)
Definition slotOk (env : Env) (from to : option Date) (os : nat -> RemoteOutcome)
    (answered : list nat) (waiting : list (option string)) (p : PromiseAll)
    (i : nat) (u : UserStats) : Prop :=
  values p !! i = Some (Some (fetchResult env from to os i u)) ∨
  ((i ∉ answered) ∧ values p !! i = Some None ∧
   waiting !! i = Some (Some (username u)) ∧
   exists rq, fetchUserStats_start env (username u) from to = Suspended rq).

(** The handler [k] is the refetch of the list [us], the calls of the
    positions in [answered] have been answered, and the list of the state is
    the values array once it has no hole. *)
Definition refreshing (env : Env) (from to : option Date) (os : nat -> RemoteOutcome)
    (us : list UserStats) (k : nat) (answered : list nat) (a : App) : Prop :=
  exists waiting p,
    tasks a !! k = Some (Refreshing waiting p) ∧
    consistent p ∧
    List.length (values p) = List.length us ∧
    (forall i u, us !! i = Some u → slotOk env from to os answered waiting p i u) ∧
    (holes (values p) = O → users (state a) = omap id (values p)).

(** The values array and the waiting calls of a refetch belong, position by
    position, to the usernames [names]. *)
Definition valuesOf (names : list string) (vs : list (option UserStats)) : Prop :=
  Forall2 (fun v name => forall r, v = Some r → username r = name) vs names.

Definition waitingOf (names : list string) (waiting : list (option string)) : Prop :=
  Forall2 (fun w name => forall m, w = Some m → m = name) waiting names.

(** A [Promise.all] over calls for pairwise different names: what it holds
    belongs to these names, and what it has fulfilled with has no
    duplicates. *)
Definition promiseOk (names : list string) (p : PromiseAll) : Prop :=
  NoDup (toLowerCase <$> names) ∧
  valuesOf names (values p) ∧
  forall vs, outcome p = Some (Fulfilled vs) → uniqueUsers vs.

Definition taskOk (t : Task) : Prop :=
  match t with
  | Refreshing waiting p => exists names, promiseOk names p ∧ waitingOf names waiting
  | Adding _ | Finished => True
  end.

(** The invariant of the application: no duplicates in the list, and none
    in what a suspended refetch can put there. *)
Definition invariant (a : App) : Prop :=
  uniqueUsers (users (state a)) ∧ Forall taskOk (tasks a).

(** "carol" typed, alice and Bob in the list, the range of January 2024. *)
Definition carolNew : App :=
  withRange [{| username := "alice"; stats := None; error := None |};
             {| username := "Bob"; stats := None; error := None |}] "carol".

(** "carol" typed after a From date the picker could not parse. *)
Definition carolInvalidFrom : App :=
  {| state := {| fromDate := Some InvalidDate; toDate := Some jan31;
                 usernameInput := "carol"; users := []; loading := false |};
     tasks := []; sent := [] |}.

(** A seed list of two names, with blanks around the second. *)
Definition aliceBobEnv : Env :=
  {| VITE_GITHUB_TOKEN := Some "tok"; VITE_GITHUB_USERS := Some "alice, bob " |}.

(** The response parses, reports no [errors] and carries a truthy
    [data.user]. *)
Definition successShape (o : RemoteOutcome) : Prop :=
  exists data errors d user,
    o = Responds (Return data) ∧
    get data "errors" = Return errors ∧ truthy errors = false ∧
    get data "data" = Return d ∧
    get d "user" = Return user ∧ truthy user = true.

(** The response parses and either its [errors] is truthy, or it is not and
    [data.user] can be read and is falsy. *)
Definition failureShape (o : RemoteOutcome) : Prop :=
  exists data errors,
    o = Responds (Return data) ∧
    get data "errors" = Return errors ∧
    (truthy errors = true ∨
     exists d user, get data "data" = Return d ∧ get d "user" = Return user ∧
                    truthy user = false).

(** The day of the proleptic Gregorian calendar, as [toISOString] writes
    it, for a number of days since 1970-01-01. *)
Definition dayString (days : Z) : string :=
  let '(y, m, d) := civilFromDays days in
  isoYear y +:+ "-" +:+ pad 2 m +:+ "-" +:+ pad 2 d.

(** A session on the seed list "alice, bob ": the range is picked, Bob's
    answer arrives, "Bob" is typed and added, the answer for it arrives, then
    Alice's. *)
Definition aSession : list Event :=
  [ChangeFrom (Some jan01); ChangeTo (Some jan31); Deliver 0 1 nullUser;
   TypeUsername "Bob"; AddUser; Deliver 1 0 (found 1); Deliver 0 0 (found 5)].

(** An entry, a waiting call or a suspended handler has a name. *)
Definition named (u : UserStats) : Prop := username u ≠ "".

Definition taskNamed (t : Task) : Prop :=
  match t with
  | Adding name => name ≠ ""
  | Refreshing waiting p =>
      Forall (fun w => forall m, w = Some m → m ≠ "") waiting ∧
      Forall (fun v => forall r, v = Some r → named r) (values p) ∧
      forall vs, outcome p = Some (Fulfilled vs) → Forall named vs
  | Finished => True
  end.

Definition allNamed (a : App) : Prop :=
  Forall named (users (state a)) ∧ Forall taskNamed (tasks a).

(** Position [i] of a refetch of a list of named entries, for the entry [u]:
    answered, it holds what the [try] made of the answer; not answered, it is
    a hole and its call waits. *)
Definition slotExact (os : nat -> RemoteOutcome) (answered : list nat)
    (waiting : list (option string)) (p : PromiseAll) (i : nat) (u : UserStats) : Prop :=
  (i ∈ answered ∧
   values p !! i = Some (Some (fetchUserStats_resume (username u) (os i)))) ∨
  ((i ∉ answered) ∧ values p !! i = Some None ∧
   waiting !! i = Some (Some (username u))).

(** The handler [k] is the refetch of the list [us], and the positions in
    [answered] are the ones whose answer has arrived. *)
Definition refetching (os : nat -> RemoteOutcome) (us : list UserStats) (k : nat)
    (answered : list nat) (a : App) : Prop :=
  exists waiting p,
    tasks a !! k = Some (Refreshing waiting p) ∧
    consistent p ∧
    List.length (values p) = List.length us ∧
    forall i u, us !! i = Some u → slotExact os answered waiting p i u.

(** An answer that the event brings to the handler [k] is the one [os]
    gives for its position. *)
Definition answersOf (os : nat -> RemoteOutcome) (k : nat) (ev : Event) : Prop :=
  match ev with
  | Deliver k' i o => k' = k → o = os i
  | _ => True
  end.

(** The positions of the handler [k] that the events bring an answer to. *)
Definition answeredIn (k : nat) (evs : list Event) : list nat :=
  omap (fun ev => match ev with
                  | Deliver k' i _ => if decide (k' = k) then Some i else None
                  | _ => None
                  end) evs.

(** The results of a refetch of [us], by position. *)
Definition results (os : nat -> RemoteOutcome) (us : list UserStats) : list UserStats :=
  imap (fun i u => fetchUserStats_resume (username u) (os i)) us.

(** While Alice's answer is awaited, Bob's arrives, "carol" is typed and
    added, and the answer for her arrives. *)
Definition whileRefetching : list Event :=
  [Deliver 0 1 nullUser; TypeUsername "carol"; AddUser; Deliver 1 0 (found 3)].

(** * Properties *)

(** ** The built-ins on examples *)

Example isoString_2024_01_01 :
  isoString 1704067200000 = "2024-01-01T00:00:00.000Z".
Proof. reflexivity. Qed.

Example isoString_2024_02_29 :
  isoString 1709251199999 = "2024-02-29T23:59:59.999Z".
Proof. reflexivity. Qed.

Example isoString_before_epoch :
  isoString (-1) = "1969-12-31T23:59:59.999Z".
Proof. reflexivity. Qed.

Example split_T :
  split "T" "2024-01-31T12:30:00.000Z" = ["2024-01-31"; "12:30:00.000Z"].
Proof. reflexivity. Qed.

Example split_commas :
  split "," "alice, bob,,carol" = ["alice"; " bob"; ""; "carol"].
Proof. reflexivity. Qed.

Example trim_both : trim "  bob " = "bob".
Proof. reflexivity. Qed.

Example toLowerCase_mixed : toLowerCase "Alice-B0B" = "alice-b0b".
Proof. reflexivity. Qed.

(** ** [fetchUserStats] *)

Lemma truthyStr_true (s : string) : truthyStr s = true ↔ s ≠ "".
Proof.
  unfold truthyStr. destruct (String.eqb_spec s ""); simpl; split; congruence.
Qed.

Lemma truthyStr_false (s : string) : truthyStr s = false ↔ s = "".
Proof.
  unfold truthyStr. destruct (String.eqb_spec s ""); simpl; split; congruence.
Qed.

Lemma isoDay_valid (t : Z) (suffix : string) :
  exists day, isoDay (ValidDate t) suffix = Return day.
Proof. unfold isoDay. simpl. eauto. Qed.

(** With a name and two calendar dates the call goes to the network. *)
Lemma fetchUserStats_start_suspends env (name : string) (a b : Z) :
  name ≠ "" →
  exists rq, fetchUserStats_start env name (Some (ValidDate a)) (Some (ValidDate b))
             = Suspended rq ∧ login rq = name.
Proof.
  intros Hname. unfold fetchUserStats_start.
  apply truthyStr_true in Hname. rewrite Hname.
  destruct (isoDay_valid a "T00:00:00Z") as [fromIso ->].
  destruct (isoDay_valid b "T23:59:59Z") as [toIso ->].
  eauto.
Qed.

(** With calendar dates the call never rejects. *)
Lemma fetchUserStats_start_total env (name : string) (from to : option Date) :
  calendarDate from → calendarDate to →
  (exists rq, fetchUserStats_start env name from to = Suspended rq ∧
              name ≠ "" ∧ is_Some from ∧ is_Some to) ∨
  (fetchUserStats_start env name from to = Settled (Fulfilled (validationError name)) ∧
   (name = "" ∨ from = None ∨ to = None)).
Proof.
  intros Hf Ht.
  destruct from as [[a|]|]; [ | by destruct Hf | right; split; [done | auto] ].
  destruct to as [[b|]|]; [ | by destruct Ht | right; split; [done | auto] ].
  destruct (decide (name = "")) as [-> | Hname].
  - right. split; [done | auto].
  - left. destruct (fetchUserStats_start_suspends env name a b Hname) as (rq & Hrq & _).
    exists rq. eauto.
Qed.

(** The three ways the [try] ends. *)
Lemma fetchUserStats_resume_cases (name : string) (o : RemoteOutcome) :
  fetchUserStats_resume name o = transportError name ∨
  fetchUserStats_resume name o = remoteError name ∨
  exists data errors d user collection,
    o = Responds (Return data) ∧
    get data "errors" = Return errors ∧ truthy errors = false ∧
    get data "data" = Return d ∧
    get d "user" = Return user ∧ truthy user = true ∧
    get user "contributionsCollection" = Return collection ∧
    fetchUserStats_resume name o =
      {| username := name; stats := Some collection; error := None |}.
Proof.
  destruct o as [e | [data | e]]; [by left | | by left].
  unfold fetchUserStats_resume, tryBody. simpl.
  destruct (get data "errors") as [errors | e] eqn:Herrors; [ | by left ].
  simpl. destruct (truthy errors) eqn:Htruthy; [ by right; left | ].
  simpl. destruct (get data "data") as [d | e] eqn:Hd; [ | by left ].
  simpl. destruct (get d "user") as [user | e] eqn:Huser; [ | by left ].
  simpl. destruct (truthy user) eqn:Hu; [ | by right; left ].
  simpl. destruct (get user "contributionsCollection") as [c | e] eqn:Hc.
  - right. right. exists data, errors, d, user, c. by rewrite Hd.
  - destruct user; simpl in Hu, Hc; discriminate.
Qed.

(** A call that has returned at once has returned its own username. *)
Lemma fetchUserStats_start_username env (name : string) (from to : option Date)
    (r : UserStats) :
  fetchUserStats_start env name from to = Settled (Fulfilled r) → username r = name.
Proof.
  unfold fetchUserStats_start. intros H.
  destruct from as [from | ]; [ | by injection H as <- ].
  destruct to as [to | ]; [ | by injection H as <- ].
  destruct (truthyStr name); [ | by injection H as <- ].
  destruct (isoDay from _); [ | done ]. by destruct (isoDay to _).
Qed.

Lemma fetchUserStats_resume_username (name : string) (o : RemoteOutcome) :
  username (fetchUserStats_resume name o) = name.
Proof.
  destruct (fetchUserStats_resume_cases name o)
    as [-> | [-> | (? & ? & ? & ? & ? & _ & _ & _ & _ & _ & _ & _ & ->)]]; done.
Qed.

(** C5. A call with an empty username or with a date of the range unset
    sends no request and returns the username with the error
    "Missing date or username" and no stats. *)
Theorem fetchUserStats_validation_precedes_network env (name : string)
    (from to : option Date) (o : RemoteOutcome) :
  name = "" ∨ from = None ∨ to = None →
  fetchUserStats_start env name from to = Settled (Fulfilled (validationError name)) ∧
  fetchUserStats env name from to o = (Fulfilled (validationError name), []) ∧
  stats (validationError name) = None ∧
  error (validationError name) = Some "Missing date or username".
Proof.
  intros H.
  assert (Hstart : fetchUserStats_start env name from to
                   = Settled (Fulfilled (validationError name))).
  { unfold fetchUserStats_start.
    destruct from as [from|]; [ | done ].
    destruct to as [to|]; [ | done ].
    destruct H as [-> | [H | H]]; [done | discriminate | discriminate]. }
  unfold fetchUserStats. rewrite Hstart. done.
Qed.

Lemma fetchUserStats_validation_precedes_network_witness :
  fetchUserStats noEnv "" (Some jan01) (Some jan31) (found 5)
  = (Fulfilled (validationError ""), []).
Proof.
  apply (fetchUserStats_validation_precedes_network noEnv "" (Some jan01) (Some jan31)
           (found 5)).
  left. reflexivity.
Defined.

(** C10. A response that parses but has neither a top-level [errors] nor a
    top-level [data] field gives the error "Network or API error.": reading
    [user] from the missing [data] throws inside the [try]. *)
Theorem fetchUserStats_no_errors_no_data env (name : string) (a b : Z) (data : JsVal) :
  name ≠ "" →
  hasOwn data "errors" = false →
  hasOwn data "data" = false →
  exists rq,
    fetchUserStats env name (Some (ValidDate a)) (Some (ValidDate b))
      (Responds (Return data))
    = (Fulfilled (transportError name), [rq]) ∧
    transportError name ≠ remoteError name.
Proof.
  intros Hname Herrors Hdata.
  destruct (fetchUserStats_start_suspends env name a b Hname) as (rq & Hrq & _).
  exists rq. unfold fetchUserStats. rewrite Hrq. split; [ | discriminate ].
  do 2 f_equal.
  unfold fetchUserStats_resume, tryBody. simpl.
  destruct data as [ | | ? | ? | ? | ? | fields]; try reflexivity.
  simpl in Herrors, Hdata.
  apply bool_decide_eq_false in Herrors, Hdata.
  destruct (lookupField "errors" fields) eqn:E1; [ by destruct Herrors | ].
  destruct (lookupField "data" fields) eqn:E2; [ by destruct Hdata | ].
  simpl. rewrite E1, E2. reflexivity.
Qed.

Lemma fetchUserStats_no_errors_no_data_witness :
  exists rq,
    fetchUserStats noEnv "alice" (Some jan01) (Some jan31)
      (Responds (Return (JObj [("message", JStr "Bad credentials")])))
    = (Fulfilled (transportError "alice"), [rq]) ∧
    transportError "alice" ≠ remoteError "alice".
Proof.
  apply (fetchUserStats_no_errors_no_data noEnv "alice" 1704067200000 1706659200000
           (JObj [("message", JStr "Bad credentials")])).
  - discriminate.
  - reflexivity.
  - reflexivity.
Defined.

(** Outside the range of calendar dates: the Invalid Date passes the guard
    and [toISOString] throws before the [try], so the call rejects. *)
Lemma fetchUserStats_invalid_date_rejects env (name : string) (to : option Date)
    (o : RemoteOutcome) :
  name ≠ "" → is_Some to →
  fetchUserStats env name (Some InvalidDate) to o = (Rejected RangeError, []).
Proof.
  intros Hname [d ->]. unfold fetchUserStats, fetchUserStats_start.
  apply truthyStr_true in Hname. by rewrite Hname.
Qed.

(** C6, as stated, fails: a response whose user record carries no
    [contributionsCollection] gives a result with neither stats nor error
    (and an Invalid Date makes the call reject). *)
Lemma fetchUserStats_exactly_one_counterexample :
  ¬ (forall env name from to o,
       exists u, (fetchUserStats env name from to o).1 = Fulfilled u ∧
                 xorb (hasStats u) (hasError u) = true).
Proof.
  intros H.
  destruct (H noEnv "alice" (Some jan01) (Some jan31)
              (Responds (Return (JObj [("data", JObj [("user", JObj [])])]))))
    as (u & Hu & Hx).
  vm_compute in Hu. injection Hu as <-. discriminate Hx.
Qed.

Lemma fetchUserStats_resume_undefined_stats (name : string) (o : RemoteOutcome) :
  stats (fetchUserStats_resume name o) = Some JUndefined ↔ userWithoutCollection o.
Proof.
  split.
  - destruct (fetchUserStats_resume_cases name o)
      as [-> | [-> | (data & errors & d & user & c & Ho & He & Hte & Hd & Hu & Htu & Hc & ->)]];
      [discriminate | discriminate | ].
    simpl. intros [= ->]. by exists data, errors, d, user.
  - intros (data & errors & d & user & -> & He & Hte & Hd & Hu & Htu & Hc).
    unfold fetchUserStats_resume, tryBody. simpl.
    rewrite He. simpl. rewrite Hte. simpl. rewrite Hd. simpl. rewrite Hu. simpl.
    rewrite Htu. simpl. by rewrite Hc.
Qed.

(** C6, amended. With each date unset or a calendar date, and whatever the
    remote does, the call returns (it does not throw) a result for the same
    username that never has both stats and error. It has neither exactly
    when the request was sent and the response carries a user record
    without [contributionsCollection]; it has exactly one of the two
    otherwise. *)
Theorem fetchUserStats_total_exclusive env (name : string) (from to : option Date)
    (o : RemoteOutcome) :
  calendarDate from → calendarDate to →
  exists u,
    (fetchUserStats env name from to o).1 = Fulfilled u ∧
    username u = name ∧
    hasStats u && hasError u = false ∧
    (hasStats u || hasError u = false ↔
       name ≠ "" ∧ is_Some from ∧ is_Some to ∧ userWithoutCollection o).
Proof.
  intros Hf Ht. unfold fetchUserStats.
  destruct (fetchUserStats_start_total env name from to Hf Ht)
    as [(rq & -> & Hname & Hfrom & Hto) | [-> Hmissing]].
  - exists (fetchUserStats_resume name o). simpl. split; [done | ].
    rewrite <- (fetchUserStats_resume_undefined_stats name o).
    destruct (fetchUserStats_resume_cases name o)
      as [-> | [-> | (data & errors & d & user & c & _ & _ & _ & _ & _ & _ & _ & ->)]].
    + repeat split; try done. by intros (_ & _ & _ & ?).
    + repeat split; try done. by intros (_ & _ & _ & ?).
    + unfold hasStats, hasError. simpl. split; [done | ].
      split; [by destruct c | ].
      rewrite orb_false_r. split.
      * destruct c; try discriminate. done.
      * intros (_ & _ & _ & [= ->]). done.
  - exists (validationError name). simpl. repeat split; try done.
    intros (Hname & [? ->] & [? ->] & _). by destruct Hmissing as [? | [? | ?]].
Qed.

Lemma fetchUserStats_total_exclusive_witness :
  exists u,
    (fetchUserStats noEnv "alice" (Some jan01) (Some jan31) (found 5)).1 = Fulfilled u ∧
    username u = "alice" ∧
    hasStats u && hasError u = false ∧
    (hasStats u || hasError u = false ↔
       "alice" ≠ "" ∧ is_Some (Some jan01) ∧ is_Some (Some jan31) ∧
       userWithoutCollection (found 5)).
Proof.
  apply (fetchUserStats_total_exclusive noEnv "alice" (Some jan01) (Some jan31) (found 5)).
  - discriminate.
  - discriminate.
Defined.

(** The four behaviours of the remote the specification names. *)
Example fetchUserStats_success :
  (fetchUserStats noEnv "alice" (Some jan01) (Some jan31) (found 5)).1
  = Fulfilled {| username := "alice"; stats := Some (counters 5); error := None |}.
Proof. reflexivity. Qed.

Example fetchUserStats_absent_user :
  (fetchUserStats noEnv "bob" (Some jan01) (Some jan31) nullUser).1
  = Fulfilled (remoteError "bob").
Proof. reflexivity. Qed.

Example fetchUserStats_api_error :
  (fetchUserStats noEnv "bob" (Some jan01) (Some jan31)
     (Responds (Return (JObj [("errors", JArr [JObj [("message", JStr "timeout")]])])))).1
  = Fulfilled (remoteError "bob").
Proof. reflexivity. Qed.

Example fetchUserStats_transport_failure :
  (fetchUserStats noEnv "bob" (Some jan01) (Some jan31) (FetchRejects TypeError)).1
  = Fulfilled (transportError "bob") ∧
  (fetchUserStats noEnv "bob" (Some jan01) (Some jan31) (Responds (Throw SyntaxError))).1
  = Fulfilled (transportError "bob").
Proof. split; reflexivity. Qed.

(** ** [handleAddUser] *)

Lemma addUpdater_present (name : string) (r : UserStats) (prev : list UserStats) :
  Exists (sameUser name) prev → addUpdater name r prev = prev.
Proof. intros H. unfold addUpdater. by rewrite decide_True. Qed.

Lemma addUpdater_absent (name : string) (r : UserStats) (prev : list UserStats) :
  ¬ Exists (sameUser name) prev → addUpdater name r prev = prev ++ [r].
Proof. intros H. unfold addUpdater. by rewrite decide_False. Qed.

Lemma deliver_no_task (k i : nat) (o : RemoteOutcome) (a : App) :
  tasks a !! k = None → deliver k i o a = a.
Proof. intros H. unfold deliver. by rewrite H. Qed.

Lemma lookup_snoc {A} (l : list A) (x : A) : (l ++ [x]) !! List.length l = Some x.
Proof. by rewrite list_lookup_middle. Qed.

Lemma lookup_length {A} (l : list A) : l !! List.length l = None.
Proof. by apply lookup_ge_None. Qed.

(** The guard of line 75. *)
Lemma handleAddUser_guard env (a : App) :
  usernameInput (state a) = "" ∨ fromDate (state a) = None ∨ toDate (state a) = None →
  handleAddUser env a = a.
Proof.
  intros H. unfold handleAddUser.
  destruct (fromDate (state a)); [ | done ].
  destruct (toDate (state a)); [ | done ].
  destruct H as [H | [H | H]]; [ | discriminate | discriminate ].
  apply truthyStr_false in H. by rewrite H.
Qed.

(** With a name and two calendar dates the handler sends its request and
    waits. *)
Lemma handleAddUser_sends env (a : App) (t1 t2 : Z) :
  usernameInput (state a) ≠ "" →
  fromDate (state a) = Some (ValidDate t1) →
  toDate (state a) = Some (ValidDate t2) →
  exists rq,
    login rq = usernameInput (state a) ∧
    handleAddUser env a =
      {| state := setLoading true (state a);
         tasks := tasks a ++ [Adding (usernameInput (state a))];
         sent := sent a ++ [rq] |}.
Proof.
  intros Hname Hfrom Hto. unfold handleAddUser. rewrite Hfrom, Hto.
  destruct (fetchUserStats_start_suspends env _ t1 t2 Hname) as (rq & -> & Hlogin).
  apply truthyStr_true in Hname. rewrite Hname. eauto.
Qed.

(** The list after [addUser] is the list before, or the list before with
    one entry appended by the updater. *)
Lemma addUser_users env (o : RemoteOutcome) (a : App) :
  users (state (addUser env o a)) = users (state a) ∨
  exists r, users (state (addUser env o a))
            = addUpdater (usernameInput (state a)) r (users (state a)).
Proof.
  unfold addUser, handleAddUser.
  destruct (fromDate (state a)) as [from|] eqn:Hfrom;
    [ | left; by rewrite deliver_no_task by apply lookup_length ].
  destruct (toDate (state a)) as [to|] eqn:Hto;
    [ | left; by rewrite deliver_no_task by apply lookup_length ].
  destruct (truthyStr (usernameInput (state a)));
    [ | left; by rewrite deliver_no_task by apply lookup_length ].
  destruct (fetchUserStats_start env _ _ _) as [[r | e] | rq].
  - right. exists r. by rewrite deliver_no_task by apply lookup_length.
  - left. by rewrite deliver_no_task by apply lookup_length.
  - right. unfold deliver. simpl. rewrite lookup_snoc. simpl. eauto.
Qed.

(** C1, as stated, fails: with no date set the handler returns at its
    guard, and no entry is added. *)
Lemma addUser_without_range_counterexample :
  ¬ (forall env o a,
       fromDate (state a) = None → toDate (state a) = None →
       users (state (addUser env o a))
       = users (state a) ++ [validationError (usernameInput (state a))]).
Proof.
  intros H.
  specialize (H noEnv (found 5) carolWithoutRange eq_refl eq_refl).
  vm_compute in H. discriminate H.
Qed.

(** C1, amended. With neither date of the range set, [addUser] changes
    nothing: the list keeps its entries and its length, and no request is
    sent. *)
Theorem addUser_without_range env (o : RemoteOutcome) (a : App) :
  fromDate (state a) = None → toDate (state a) = None →
  addUser env o a = a ∧
  users (state (addUser env o a)) = users (state a) ∧
  List.length (users (state (addUser env o a))) = List.length (users (state a)) ∧
  sent (addUser env o a) = sent a.
Proof.
  intros Hfrom Hto.
  assert (H : addUser env o a = a).
  { unfold addUser. rewrite handleAddUser_guard by auto.
    apply deliver_no_task, lookup_length. }
  by rewrite H.
Qed.

Lemma addUser_without_range_witness :
  addUser noEnv (found 5) carolWithoutRange = carolWithoutRange ∧
  users (state (addUser noEnv (found 5) carolWithoutRange))
  = users (state carolWithoutRange) ∧
  List.length (users (state (addUser noEnv (found 5) carolWithoutRange)))
  = List.length (users (state carolWithoutRange)) ∧
  sent (addUser noEnv (found 5) carolWithoutRange) = sent carolWithoutRange.
Proof.
  apply (addUser_without_range noEnv (found 5) carolWithoutRange); reflexivity.
Defined.

(** C3, as stated, fails: the request for a name that is in the list is
    sent all the same. *)
Lemma addUser_present_counterexample :
  ¬ (forall env o a,
       Exists (sameUser (usernameInput (state a))) (users (state a)) →
       sent (addUser env o a) = sent a ∧
       users (state (addUser env o a)) = users (state a)).
Proof.
  intros H.
  destruct (H noEnv (found 5) aliceAgain) as [Hsent _].
  - apply Exists_cons_hd. reflexivity.
  - vm_compute in Hsent. discriminate Hsent.
Qed.

(** C3, amended. For a name that is in the list (compared in lower case)
    and a range of two calendar dates, [addUser] calls [fetchUserStats]
    first, which sends one request for that name, and then drops the
    result: the list is left as it was. *)
Theorem addUser_present env (o : RemoteOutcome) (a : App) (t1 t2 : Z) :
  usernameInput (state a) ≠ "" →
  fromDate (state a) = Some (ValidDate t1) →
  toDate (state a) = Some (ValidDate t2) →
  Exists (sameUser (usernameInput (state a))) (users (state a)) →
  users (state (addUser env o a)) = users (state a) ∧
  exists rq, login rq = usernameInput (state a) ∧
             sent (addUser env o a) = sent a ++ [rq].
Proof.
  intros Hname Hfrom Hto Hpresent.
  destruct (handleAddUser_sends env a t1 t2 Hname Hfrom Hto) as (rq & Hlogin & Hsends).
  unfold addUser. rewrite Hsends. unfold deliver. simpl. rewrite lookup_snoc. simpl.
  split; [ by apply addUpdater_present | eauto ].
Qed.

Lemma addUser_present_witness :
  users (state (addUser noEnv (found 5) aliceAgain)) = users (state aliceAgain) ∧
  exists rq, login rq = usernameInput (state aliceAgain) ∧
             sent (addUser noEnv (found 5) aliceAgain) = sent aliceAgain ++ [rq].
Proof.
  apply (addUser_present noEnv (found 5) aliceAgain 1704067200000 1706659200000).
  - discriminate.
  - reflexivity.
  - reflexivity.
  - apply Exists_cons_hd. reflexivity.
Defined.

(** C7. Adding a name that is in the list (compared in lower case) leaves
    the list as it is: same entries, same length, same order. *)
Theorem addUser_idempotent env (o : RemoteOutcome) (a : App) :
  Exists (sameUser (usernameInput (state a))) (users (state a)) →
  users (state (addUser env o a)) = users (state a) ∧
  List.length (users (state (addUser env o a))) = List.length (users (state a)).
Proof.
  intros Hpresent.
  assert (H : users (state (addUser env o a)) = users (state a)).
  { destruct (addUser_users env o a) as [H | [r H]]; [done | ].
    by rewrite H, addUpdater_present. }
  by rewrite H.
Qed.

Lemma addUser_idempotent_witness :
  users (state (addUser noEnv (found 5) bobAgain)) = users (state bobAgain) ∧
  List.length (users (state (addUser noEnv (found 5) bobAgain)))
  = List.length (users (state bobAgain)).
Proof.
  apply (addUser_idempotent noEnv (found 5) bobAgain).
  apply Exists_cons_tl, Exists_cons_hd. reflexivity.
Defined.

(** ** [handleRemoveUser] *)

Lemma length_filter_split {A} (P : A → Prop) `{!∀ x, Decision (P x)} (l : list A) :
  (List.length (filter (fun x => ¬ P x) l) + List.length (filter P l)
   = List.length l)%nat.
Proof.
  rewrite Nat.add_comm, <- length_app.
  apply Permutation_length, filter_app_complement.
Qed.

(** C8. With a non-empty name, [handleRemoveUser] keeps the entries whose
    username differs from it in lower case, in their order, and drops all
    the others; with the empty name it changes nothing. *)
Theorem handleRemoveUser_removes_matching (name : string) (s : State) :
  (name = "" ∧ handleRemoveUser name s = s) ∨
  (name ≠ "" ∧
   sublist (users (handleRemoveUser name s)) (users s) ∧
   Forall (fun u => ¬ sameUser name u) (users (handleRemoveUser name s)) ∧
   (forall u, u ∈ users s → ¬ sameUser name u → u ∈ users (handleRemoveUser name s)) ∧
   (List.length (users (handleRemoveUser name s))
    + List.length (filter (sameUser name) (users s)) = List.length (users s))%nat ∧
   handleRemoveUser name s = setUsers (fun _ => users (handleRemoveUser name s)) s).
Proof.
  unfold handleRemoveUser.
  destruct (decide (name = "")) as [-> | Hname]; [ by left | right ].
  split; [done | ].
  apply truthyStr_true in Hname. rewrite Hname. simpl.
  repeat split.
  - apply sublist_filter.
  - apply Forall_forall. intros u Hu. by apply list_elem_of_filter in Hu as [? _].
  - intros u Hu Hne. by apply list_elem_of_filter.
  - apply length_filter_split.
Qed.

(** Removing "Alice" drops the entry seeded as "alice" and keeps the rest. *)
Example handleRemoveUser_Alice :
  users (handleRemoveUser "Alice"
           (setUsers (fun _ => [{| username := "bob"; stats := None; error := None |};
                                {| username := "alice"; stats := None; error := None |};
                                {| username := "carol"; stats := None; error := None |}])
              initialState))
  = [{| username := "bob"; stats := None; error := None |};
     {| username := "carol"; stats := None; error := None |}].
Proof. reflexivity. Qed.

(** ** The effect that pre-populates the list *)

Lemma split_nonempty (sep : ascii) (s : string) : split sep s ≠ [].
Proof.
  destruct s as [ | c rest]; simpl; [done | ].
  destruct (Ascii.eqb c sep); [done | ]. by destruct (split sep rest).
Qed.

(** The pieces of [split] joined by the separator give the string back. *)
Lemma join_split (sep : ascii) (s : string) : join sep (split sep s) = s.
Proof.
  induction s as [ | c rest IH]; simpl; [done | ].
  destruct (Ascii.eqb_spec c sep) as [-> | Hne].
  - simpl. pose proof (split_nonempty sep rest).
    destruct (split sep rest) eqn:E; [done | ]. by rewrite IH.
  - pose proof (split_nonempty sep rest).
    destruct (split sep rest) as [ | piece pieces] eqn:E; [done | ].
    simpl in *. destruct pieces; simpl in *; by rewrite <- IH.
Qed.

(** No piece of [split] holds the separator. *)
Lemma split_pieces (sep : ascii) (s : string) :
  Forall (fun piece => ¬ occurs sep piece) (split sep s).
Proof.
  induction s as [ | c rest IH]; simpl.
  - apply Forall_singleton. tauto.
  - destruct (Ascii.eqb_spec c sep) as [-> | Hne].
    + apply Forall_cons. split; [simpl; tauto | done].
    + destruct (split sep rest) as [ | piece pieces].
      * apply Forall_singleton. simpl. tauto.
      * apply Forall_cons in IH as [Hp Hps]. apply Forall_cons. split; [ | done ].
        simpl. tauto.
Qed.

Lemma elem_of_lowered (name : string) (prev : list UserStats) :
  toLowerCase name ∈ map (fun u => toLowerCase (username u)) prev
  ↔ Exists (sameUser name) prev.
Proof.
  rewrite list_elem_of_In, in_map_iff, Exists_exists. unfold sameUser.
  split; intros (u & H1 & H2); exists u.
  - by apply list_elem_of_In in H2.
  - by apply list_elem_of_In in H1.
Qed.

Lemma seedUpdater_spec (names : list string) (prev : list UserStats) :
  seedUpdater names prev
  = prev ++ map unfetched (filter (fun name => ¬ Exists (sameUser name) prev) names).
Proof.
  unfold seedUpdater. do 2 f_equal.
  apply list_filter_iff. intros name. by rewrite elem_of_lowered.
Qed.

Lemma envUsers_spec (token : option string) (names : string) :
  envUsers {| VITE_GITHUB_TOKEN := token; VITE_GITHUB_USERS := Some names |}
  = filter (fun piece => piece ≠ "") (map trim (split "," names)).
Proof.
  unfold envUsers. simpl. apply list_filter_iff. intros piece. apply truthyStr_true.
Qed.

(** C9. Seeding from a configuration string appends, for each piece
    between its commas that is not empty once trimmed and is not in the
    list (compared in lower case), an entry with neither stats nor error;
    the rest of the state is kept, and the first render sends no request
    and leaves no handler waiting. *)
Theorem seedEffect_spec (token : option string) (names : string) (s : State) :
  users (seedEffect {| VITE_GITHUB_TOKEN := token; VITE_GITHUB_USERS := Some names |} s)
  = seedFromStaticList names (users s) ∧
  seedEffect {| VITE_GITHUB_TOKEN := token; VITE_GITHUB_USERS := Some names |} s
  = setUsers (fun _ => seedFromStaticList names (users s)) s ∧
  join "," (split "," names) = names ∧
  Forall (fun piece => ¬ occurs "," piece) (split "," names) ∧
  Forall (fun u => stats u = None ∧ error u = None)
    (drop (List.length (users s)) (seedFromStaticList names (users s))) ∧
  mount {| VITE_GITHUB_TOKEN := token; VITE_GITHUB_USERS := Some names |}
  = {| state := setUsers (fun _ => seedFromStaticList names []) initialState;
       tasks := []; sent := [] |}.
Proof.
  set (env := {| VITE_GITHUB_TOKEN := token; VITE_GITHUB_USERS := Some names |}).
  assert (Hseed : forall s0, seedEffect env s0
                    = setUsers (fun _ => seedFromStaticList names (users s0)) s0).
  { intros s0. unfold seedEffect, seedFromStaticList.
    rewrite <- (envUsers_spec token names). fold env.
    destruct (decide _) as [Hlen | Hlen].
    - unfold setUsers. by rewrite seedUpdater_spec.
    - destruct (envUsers env); [ | simpl in Hlen; lia ].
      rewrite filter_nil. simpl. rewrite app_nil_r. by destruct s0. }
  repeat split.
  - by rewrite Hseed.
  - apply Hseed.
  - apply join_split.
  - apply split_pieces.
  - unfold seedFromStaticList. rewrite drop_app_length.
    apply Forall_forall. intros u Hu. apply list_elem_of_In, in_map_iff in Hu.
    by destruct Hu as (name & <- & _).
  - unfold mount. rewrite Hseed. reflexivity.
Qed.

(** The two names of "alice, bob" on the empty list. *)
Example seedEffect_alice_bob :
  users (state (mount {| VITE_GITHUB_TOKEN := None; VITE_GITHUB_USERS := Some "alice, bob" |}))
  = [unfetched "alice"; unfetched "bob"].
Proof. reflexivity. Qed.

(** ** [Promise.all] and the refetch effect *)

Lemma holes_insert (vs : list (option UserStats)) (i : nat) (x : UserStats) :
  vs !! i = Some None →
  holes vs = S (holes (<[i := Some x]> vs)).
Proof.
  revert i. induction vs as [ | v vs IH]; intros [ | i] H; simpl in *; try done.
  - by injection H as ->.
  - destruct v; [ by apply IH | f_equal; by apply IH ].
Qed.

Lemma holes_filled (vs : list (option UserStats)) (i : nat) :
  holes vs = O → vs !! i ≠ Some None.
Proof.
  revert i. induction vs as [ | v vs IH]; intros [ | i] H; simpl in *; try done.
  - by destruct v.
  - destruct v; [ by apply IH | done ].
Qed.

Lemma holes_replicate (n : nat) : holes (replicate n None) = n.
Proof. induction n; simpl; congruence. Qed.

Lemma consistent_new (n : nat) : consistent (promiseAll_new n).
Proof.
  unfold consistent, promiseAll_new. simpl. rewrite holes_replicate.
  split; [done | ]. by destruct n.
Qed.

(** An element that fulfils at a hole fills it; anywhere else it changes
    nothing. *)
Lemma resolveElement_hole (i : nat) (x : UserStats) (p : PromiseAll) :
  consistent p → values p !! i = Some None →
  consistent (resolveElement i x p) ∧
  values (resolveElement i x p) = <[i := Some x]> (values p).
Proof.
  intros [Hcount Hout] Hi. unfold resolveElement, consistent. rewrite Hi. simpl.
  rewrite Hcount, Hout, (holes_insert _ i x Hi). simpl.
  split; [ | done ]. split; [done | ].
  by destruct (holes (<[i := Some x]> (values p))).
Qed.

Lemma resolveElement_filled (i : nat) (x : UserStats) (p : PromiseAll) :
  values p !! i ≠ Some None → resolveElement i x p = p.
Proof.
  intros Hi. unfold resolveElement.
  destruct (values p !! i) as [[r | ] | ]; done.
Qed.

Lemma omap_id_Some {A} (l : list A) : omap id (Some <$> l) = l.
Proof. induction l as [ | x l IH]; [done | ]. csimpl. by rewrite IH. Qed.

Lemma holes_Some (l : list UserStats) : holes (Some <$> l) = O.
Proof. induction l as [ | x l IH]; [done | ]. by csimpl. Qed.

#[local] Arguments fetchUserStats_start : simpl never.

Section Refresh.
Variable env : Env.
Variable os : nat -> RemoteOutcome.
Variables t1 t2 : Z.

Local Abbreviation from := (Some (ValidDate t1)).
Local Abbreviation to := (Some (ValidDate t2)).
Local Abbreviation call := (fun u : UserStats => fetchUserStats_start env (username u) from to).

(** With two calendar dates a call waits for the network or has returned
    its validation error. *)
Lemma call_cases (u : UserStats) :
  (exists rq, call u = Suspended rq) ∨
  (exists r, call u = Settled (Fulfilled r)).
Proof.
  destruct (fetchUserStats_start_total env (username u) from to)
    as [(rq & H & _) | [H _]]; try discriminate; eauto.
Qed.

(** The calls that had returned when [Promise.all] got them fill their
    positions; the others stay holes. *)
Lemma settleFrom_spec (ps : list UserStats) (i : nat) (acc : PromiseAll) :
  consistent acc →
  (forall j, (i <= j < i + List.length ps)%nat → values acc !! j = Some None) →
  consistent (settleFrom i (map call ps) acc) ∧
  List.length (values (settleFrom i (map call ps) acc)) = List.length (values acc) ∧
  (forall j, (j < i)%nat →
     values (settleFrom i (map call ps) acc) !! j = values acc !! j) ∧
  (forall j u, ps !! j = Some u →
     values (settleFrom i (map call ps) acc) !! (i + j)%nat =
       match call u with
       | Settled (Fulfilled r) => Some (Some r)
       | _ => Some None
       end).
Proof.
  revert i acc. induction ps as [ | u ps IH]; intros i acc Hacc Hholes; simpl.
  - do 3 (split; [done | ]). intros j u Hj. by rewrite lookup_nil in Hj.
  - assert (Hi : values acc !! i = Some None) by (apply Hholes; simpl; lia).
    set (acc' := match call u with
                 | Settled (Fulfilled r) => resolveElement i r acc
                 | Settled (Rejected e) => rejectElement e acc
                 | Suspended _ => acc
                 end).
    assert (Hacc' : consistent acc' ∧
              List.length (values acc') = List.length (values acc) ∧
              (forall j, j ≠ i → values acc' !! j = values acc !! j) ∧
              values acc' !! i = match call u with
                                 | Settled (Fulfilled r) => Some (Some r)
                                 | _ => Some None
                                 end).
    { subst acc'. destruct (call_cases u) as [[rq ->] | [r ->]]; [done | ].
      destruct (resolveElement_hole i r acc Hacc Hi) as [Hc ->].
      split; [done | ]. split; [ by rewrite length_insert | ].
      split; [ intros j Hj; by rewrite list_lookup_insert_ne | ].
      apply list_lookup_insert_eq. by apply lookup_lt_Some in Hi. }
    destruct Hacc' as (Hc & Hlen & Hother & Hhere).
    destruct (IH (S i) acc' Hc) as (Hc' & Hlen' & Hbelow & Hat).
    { intros j Hj. rewrite Hother by lia. apply Hholes. simpl. lia. }
    split; [done | ]. split; [ by etrans | ]. split.
    + intros j Hj. rewrite Hbelow by lia. apply Hother. lia.
    + intros [ | j] u' Hu'; simpl in Hu'.
      * injection Hu' as <-. rewrite Nat.add_0_r, Hbelow by lia. done.
      * replace (i + S j)%nat with (S i + j)%nat by lia. by apply Hat.
Qed.

Lemma fetchResult_fetchUserStats (i : nat) (u : UserStats) :
  (fetchUserStats env (username u) from to (os i)).1
  = Fulfilled (fetchResult env from to os i u) ∧
  username (fetchResult env from to os i u) = username u.
Proof.
  unfold fetchUserStats, fetchResult.
  destruct (call_cases u) as [[rq Hcall] | [r Hcall]]; rewrite Hcall; simpl.
  - split; [done | apply fetchUserStats_resume_username].
  - split; [done | ]. by apply fetchUserStats_start_username in Hcall.
Qed.

(** The effect leaves a refetch of the list behind, none of its calls
    answered. *)
Lemma refetchEffect_refreshing (a : App) :
  fromDate (state a) = from → toDate (state a) = to → users (state a) ≠ [] →
  refreshing env from to os (users (state a)) (List.length (tasks a)) []
    (refetchEffect env (state a) a).
Proof.
  intros Hfrom Hto Hne. unfold refetchEffect. rewrite Hfrom, Hto.
  destruct (users (state a)) as [ | u0 rest] eqn:Hus; [done | ].
  rewrite <- Hus. clear Hne. set (us := users (state a)).
  destruct (settleFrom_spec us 0 (promiseAll_new (List.length us)))
    as (Hc & Hlen & _ & Hat).
  { apply consistent_new. }
  { intros j Hj. simpl. apply lookup_replicate_2. lia. }
  simpl in Hlen. rewrite length_replicate in Hlen.
  eexists _, (settleAtStart (map call us)). split; [ simpl; apply lookup_snoc | ].
  unfold settleAtStart. rewrite length_map.
  split; [done | ]. split; [done | ]. split.
  - intros i u Hu. specialize (Hat i u Hu). simpl in Hat. unfold slotOk, fetchResult.
    destruct (call_cases u) as [[rq Hrq] | [r Hr]].
    + right. rewrite Hrq in Hat. split; [ apply not_elem_of_nil | ].
      split; [done | ]. split; [ | eauto ].
      change (map ?f us) with (f <$> us). rewrite list_lookup_fmap, Hu. simpl.
      by rewrite Hrq.
    + left. rewrite Hr in Hat. by rewrite Hr.
  - intros Hholes. destruct Hc as [_ Hout]. rewrite Hholes in Hout.
    simpl. by rewrite Hout.
Qed.

(** An answer keeps the refetch going, with its position answered. *)
Lemma deliver_refreshing (us : list UserStats) (k i : nat) (answered : list nat)
    (a : App) :
  refreshing env from to os us k answered a →
  refreshing env from to os us k (i :: answered) (deliver k i (os i) a).
Proof.
  intros (waiting & p & Htask & Hc & Hlen & Hslots & Hstate).
  assert (Hk : (k < List.length (tasks a))%nat) by by apply lookup_lt_Some in Htask.
  unfold deliver. rewrite Htask.
  destruct (waiting !! i) as [[name | ] | ] eqn:Hw.
  - assert (Hcase : values p !! i = Some None ∨ values p !! i ≠ Some None).
    { destruct (values p !! i) as [[r | ] | ]; [by right | by left | by right]. }
    destruct Hcase as [Hhole | Hfilled].
    + destruct (resolveElement_hole i (fetchUserStats_resume name (os i)) p Hc Hhole)
        as [Hc' Hvs].
      assert (Hi : (i < List.length us)%nat).
      { rewrite <- Hlen. by apply lookup_lt_Some in Hhole. }
      apply lookup_lt_is_Some in Hi as [u Hu].
      assert (Hres : fetchUserStats_resume name (os i) = fetchResult env from to os i u).
      { destruct (Hslots i u Hu) as [Hv | (_ & _ & Hwu & rq & Hrq)]; [congruence | ].
        unfold fetchResult. rewrite Hrq. congruence. }
      eexists _, _. simpl. split; [ by apply list_lookup_insert_eq | ].
      split; [done | ]. split; [ by rewrite Hvs, length_insert | ]. split.
      * intros j u' Hu'. unfold slotOk. rewrite Hvs.
        destruct (decide (j = i)) as [-> | Hji].
        -- left. assert (u' = u) as -> by congruence. rewrite <- Hres.
           apply list_lookup_insert_eq. by apply lookup_lt_Some in Hhole.
        -- destruct (Hslots j u' Hu') as [Hv | (Hj & Hv & Hwj & Hcall)].
           ++ left. by rewrite list_lookup_insert_ne.
           ++ right. split; [ by apply not_elem_of_cons | ].
              by rewrite !list_lookup_insert_ne.
      * intros Hholes. destruct Hc as [_ Hout], Hc' as [_ Hout'].
        rewrite Hvs in Hout', Hholes |- *.
        rewrite (holes_insert _ i (fetchUserStats_resume name (os i)) Hhole) in Hout.
        rewrite Hholes in Hout'. by rewrite Hout, Hout'.
    + rewrite (resolveElement_filled _ _ _ Hfilled).
      eexists _, _. simpl. split; [ by apply list_lookup_insert_eq | ].
      split; [done | ]. split; [done | ]. split.
      * intros j u' Hu'. destruct (Hslots j u' Hu') as [Hv | (Hj & Hv & Hwj & Hcall)].
        -- by left.
        -- right. assert (j ≠ i) by congruence.
           split; [ by apply not_elem_of_cons | ]. by rewrite list_lookup_insert_ne.
      * intros Hholes. destruct (outcome p); by apply Hstate.
  - exists waiting, p. repeat (split; [done | ]). split; [ | done ].
    intros j u' Hu'. destruct (Hslots j u' Hu') as [Hv | (Hj & Hv & Hwj & Hcall)].
    + by left.
    + right. assert (j ≠ i) by congruence. split; [ by apply not_elem_of_cons | done ].
  - exists waiting, p. repeat (split; [done | ]). split; [ | done ].
    intros j u' Hu'. destruct (Hslots j u' Hu') as [Hv | (Hj & Hv & Hwj & Hcall)].
    + by left.
    + right. assert (j ≠ i) by congruence. split; [ by apply not_elem_of_cons | done ].
Qed.

(** The answers of a schedule, one after the other. *)
Lemma schedule_refreshing (us : list UserStats) (k : nat) (schedule answered : list nat)
    (a : App) :
  refreshing env from to os us k answered a →
  exists answered',
    answered ⊆ answered' ∧ schedule ⊆ answered' ∧
    refreshing env from to os us k answered'
      (fold_left (fun acc i => deliver k i (os i) acc) schedule a).
Proof.
  revert answered a. induction schedule as [ | i schedule IH]; intros answered a H.
  - exists answered. split; [done | ]. split; [ apply list_subseteq_nil | done ].
  - simpl. destruct (IH (i :: answered) _ (deliver_refreshing us k i answered a H))
      as (answered' & Hsub & Hsched & Hfinal).
    exists answered'. split; [ | split; [ | done ] ].
    + intros j Hj. apply Hsub. by apply list_elem_of_further.
    + intros j Hj. apply elem_of_cons in Hj as [-> | Hj]; [ | by apply Hsched ].
      apply Hsub. apply list_elem_of_here.
Qed.

(** Once every position has been answered the list of the state is the
    list of the results, by position. *)
Lemma refreshing_done (us : list UserStats) (k : nat) (answered : list nat) (a : App) :
  refreshing env from to os us k answered a →
  (forall i, (i < List.length us)%nat → i ∈ answered) →
  users (state a) = imap (fetchResult env from to os) us.
Proof.
  intros (waiting & p & Htask & Hc & Hlen & Hslots & Hstate) Hall.
  assert (Hvs : values p = Some <$> imap (fetchResult env from to os) us).
  { apply list_eq. intros i. rewrite list_lookup_fmap, list_lookup_imap.
    destruct (us !! i) as [u | ] eqn:Hu; simpl.
    - destruct (Hslots i u Hu) as [Hv | (Hi & _)]; [done | ].
      destruct Hi. apply Hall. by apply lookup_lt_Some in Hu.
    - apply lookup_ge_None. rewrite Hlen. by apply lookup_ge_None. }
  rewrite Hstate; rewrite Hvs; [ apply omap_id_Some | apply holes_Some ].
Qed.

End Refresh.

(** C4. With a range of two calendar dates, and whatever order the answers
    of the remote calls arrive in, the refetch replaces the list by the
    results of the calls, position by position: the entry at position [i]
    afterwards is what [fetchUserStats] returns for the username that was at
    position [i] before, and it carries that username. *)
Theorem refreshAll_keeps_positions (env : Env) (os : nat -> RemoteOutcome)
    (schedule : list nat) (a : App) (t1 t2 : Z) :
  fromDate (state a) = Some (ValidDate t1) →
  toDate (state a) = Some (ValidDate t2) →
  schedule ≡ₚ seq 0 (List.length (users (state a))) →
  List.length (users (state (refreshAll env os schedule a)))
  = List.length (users (state a)) ∧
  forall i u, users (state a) !! i = Some u →
    exists r,
      users (state (refreshAll env os schedule a)) !! i = Some r ∧
      (fetchUserStats env (username u) (fromDate (state a)) (toDate (state a)) (os i)).1
      = Fulfilled r ∧
      username r = username u.
Proof.
  intros Hfrom Hto Hperm.
  assert (Husers : users (state (refreshAll env os schedule a))
                   = imap (fetchResult env (Some (ValidDate t1)) (Some (ValidDate t2)) os)
                       (users (state a))).
  { unfold refreshAll. destruct (users (state a)) as [ | u0 rest] eqn:Hus.
    - apply Permutation_nil_r in Hperm as ->. simpl.
      unfold refetchEffect. rewrite Hfrom, Hto, Hus. by rewrite Hus.
    - rewrite <- Hus in *.
      assert (Hne : users (state a) ≠ []) by by rewrite Hus.
      pose proof (refetchEffect_refreshing env os t1 t2 a Hfrom Hto Hne) as Hstart.
      destruct (schedule_refreshing env os t1 t2 _ _ schedule _ _ Hstart)
        as (answered & _ & Hsched & Hfinal).
      apply (refreshing_done env os t1 t2 _ _ _ _ Hfinal).
      intros i Hi. apply Hsched. rewrite Hperm. apply elem_of_seq. lia. }
  rewrite Husers, length_imap. split; [done | ].
  intros i u Hu. rewrite Hfrom, Hto.
  destruct (fetchResult_fetchUserStats env os t1 t2 i u) as [Hres Hname].
  eexists. rewrite list_lookup_imap, Hu. simpl. eauto.
Qed.

Lemma refreshAll_keeps_positions_witness :
  List.length (users (state (refreshAll noEnv aliceFoundBobNot [1; 0]%nat aliceAndBob)))
  = List.length (users (state aliceAndBob)) ∧
  forall i u, users (state aliceAndBob) !! i = Some u →
    exists r,
      users (state (refreshAll noEnv aliceFoundBobNot [1; 0]%nat aliceAndBob)) !! i = Some r ∧
      (fetchUserStats noEnv (username u) (fromDate (state aliceAndBob))
         (toDate (state aliceAndBob)) (aliceFoundBobNot i)).1
      = Fulfilled r ∧
      username r = username u.
Proof.
  apply (refreshAll_keeps_positions noEnv aliceFoundBobNot [1; 0]%nat aliceAndBob
           1704067200000 1706659200000).
  - reflexivity.
  - reflexivity.
  - apply perm_swap.
Defined.

(** With an Invalid Date in the range every call rejects, so does
    [Promise.all], and the list stays as it was. *)
Example refreshAll_invalid_date :
  users (state (refreshAll noEnv aliceFoundBobNot [1; 0]%nat
                  (withState (setFromDate (Some InvalidDate)) aliceAndBob)))
  = users (state aliceAndBob).
Proof. reflexivity. Qed.

(** The scenario of the specification: Alice's counters, then the error
    for Bob, though Bob's answer came first. *)
Example refreshAll_alice_bob :
  users (state (refreshAll noEnv aliceFoundBobNot [1; 0]%nat aliceAndBob))
  = [{| username := "alice"; stats := Some (counters 5); error := None |};
     remoteError "bob"].
Proof. reflexivity. Qed.

(** ** The list has no duplicates, but for the seed list *)

(** C2 at the seed list "alice,Alice": the effect filters the names
    against the list it finds, not against each other, so the first render
    leaves two entries that are equal in lower case. *)
Theorem seedEffect_duplicates :
  reachable aliceTwice (mount aliceTwice) ∧
  users (state (mount aliceTwice)) = [unfetched "alice"; unfetched "Alice"] ∧
  ¬ uniqueUsers (users (state (mount aliceTwice))).
Proof.
  split; [ by exists [] | ]. split; [ reflexivity | ].
  unfold uniqueUsers. intros H. apply NoDup_cons in H as [H _].
  apply H. apply list_elem_of_here.
Qed.

Lemma uniqueUsers_fmap (l : list UserStats) :
  uniqueUsers l ↔ NoDup (toLowerCase <$> (username <$> l)).
Proof.
  unfold uniqueUsers. change (map ?f l) with (f <$> l). by rewrite <- list_fmap_compose.
Qed.

Lemma uniqueUsers_sublist (l1 l2 : list UserStats) :
  sublist l1 l2 → uniqueUsers l2 → uniqueUsers l1.
Proof.
  rewrite !uniqueUsers_fmap. intros Hsub Hl2.
  eapply sublist_NoDup; [done | ]. by do 2 apply fmap_sublist.
Qed.

Lemma valuesOf_sublist (names : list string) (vs : list (option UserStats)) :
  valuesOf names vs → sublist (username <$> omap id vs) names.
Proof.
  induction 1 as [ | v name vs names Hv _ IH]; [done | ].
  destruct v as [r | ]; csimpl.
  - rewrite (Hv r eq_refl). by apply sublist_skip.
  - by apply sublist_cons.
Qed.

Lemma valuesOf_unique (names : list string) (vs : list (option UserStats)) :
  NoDup (toLowerCase <$> names) → valuesOf names vs → uniqueUsers (omap id vs).
Proof.
  intros Hnames Hvs. apply uniqueUsers_fmap.
  eapply sublist_NoDup; [done | ]. by apply fmap_sublist, valuesOf_sublist.
Qed.

Lemma resolveElement_ok (names : list string) (i : nat) (x : UserStats) (p : PromiseAll) :
  promiseOk names p → names !! i = Some (username x) →
  promiseOk names (resolveElement i x p).
Proof.
  intros (Hnames & Hvs & Hout) Hi. unfold resolveElement.
  destruct (values p !! i) as [[r | ] | ]; try done.
  assert (Hvs' : valuesOf names (<[i := Some x]> (values p))).
  { rewrite <- (list_insert_id names i (username x) Hi).
    apply Forall2_insert; [done | ]. by intros r [= <-]. }
  split; [done | ]. split; [done | ]. simpl. intros vs.
  destruct (outcome p) as [o | ]; [ apply Hout | ].
  destruct (pred (remainingElementsCount p)); [ | done ].
  intros [= <-]. by apply valuesOf_unique with names.
Qed.

Lemma rejectElement_ok (names : list string) (e : JsError) (p : PromiseAll) :
  promiseOk names p → promiseOk names (rejectElement e p).
Proof.
  intros (Hnames & Hvs & Hout). split; [done | ]. split; [done | ]. simpl. intros vs.
  destruct (outcome p) as [o | ]; [ apply Hout | done ].
Qed.

Lemma promiseAll_new_ok (names : list string) :
  NoDup (toLowerCase <$> names) → promiseOk names (promiseAll_new (List.length names)).
Proof.
  intros Hnames. split; [done | ]. split.
  - apply Forall2_replicate_l; [done | ]. apply Forall_forall. by intros.
  - simpl. destruct names; [ | done ]. intros vs [= <-]. apply NoDup_nil_2.
Qed.

Lemma settleFrom_ok env (from to : option Date) (names : list string)
    (us : list UserStats) (i : nat) (acc : PromiseAll) :
  promiseOk names acc →
  (forall j u, us !! j = Some u → names !! (i + j)%nat = Some (username u)) →
  promiseOk names
    (settleFrom i (map (fun u => fetchUserStats_start env (username u) from to) us) acc).
Proof.
  revert i acc. induction us as [ | u us IH]; intros i acc Hacc Hnames; simpl; [done | ].
  apply IH.
  - destruct (fetchUserStats_start env (username u) from to) as [[r | e] | rq] eqn:Hcall.
    + apply resolveElement_ok; [done | ].
      rewrite (fetchUserStats_start_username _ _ _ _ _ Hcall).
      specialize (Hnames O u eq_refl). by rewrite Nat.add_0_r in Hnames.
    + by apply rejectElement_ok.
    + done.
  - intros j u' Hu'. replace (S i + j)%nat with (i + S j)%nat by lia. by apply Hnames.
Qed.

Lemma addUpdater_unique (name : string) (r : UserStats) (prev : list UserStats) :
  username r = name → uniqueUsers prev → uniqueUsers (addUpdater name r prev).
Proof.
  intros Hr Hprev. unfold addUpdater. destruct (decide _) as [Hin | Hout]; [done | ].
  unfold uniqueUsers. rewrite map_app. simpl. apply NoDup_app.
  split; [done | ]. split; [ | apply NoDup_singleton ].
  intros x Hx Hx'. apply list_elem_of_singleton in Hx' as ->. apply Hout.
  rewrite Hr in Hx. by apply elem_of_lowered in Hx.
Qed.

Lemma handleAddUser_finish_invariant (name : string) (r : UserStats) (s : State) :
  username r = name → uniqueUsers (users s) →
  uniqueUsers (users (handleAddUser_finish name r s)).
Proof. intros Hr Hs. simpl. by apply addUpdater_unique. Qed.

Lemma handleRemoveUser_unique (name : string) (s : State) :
  uniqueUsers (users s) → uniqueUsers (users (handleRemoveUser name s)).
Proof.
  intros Hs. unfold handleRemoveUser. destruct (truthyStr name); [ | done ].
  simpl. eapply uniqueUsers_sublist; [ apply sublist_filter | done ].
Qed.

Lemma refreshReactions_unique (o : Settlement (list UserStats)) (s : State) :
  uniqueUsers (users s) →
  (forall vs, o = Fulfilled vs → uniqueUsers vs) →
  uniqueUsers (users (refreshReactions o s)).
Proof. intros Hs Ho. destruct o as [vs | e]; simpl; [ by apply Ho | done ]. Qed.

Lemma refetchEffect_invariant env (snap : State) (a : App) :
  uniqueUsers (users snap) → invariant a → invariant (refetchEffect env snap a).
Proof.
  intros Hsnap [Hu Ht]. unfold refetchEffect.
  destruct (fromDate snap) as [from | ]; [ | done ].
  destruct (toDate snap) as [to | ]; [ | done ].
  destruct (users snap) as [ | u0 rest] eqn:Hus; [done | ].
  rewrite <- Hus in Hsnap |- *. set (us := users snap) in *.
  set (call := fun u : UserStats => fetchUserStats_start env (username u) (Some from) (Some to)).
  assert (Hp : promiseOk (username <$> us) (settleAtStart (map call us))).
  { unfold settleAtStart. rewrite length_map, <- (length_fmap username us).
    apply settleFrom_ok.
    - apply promiseAll_new_ok. by apply uniqueUsers_fmap.
    - intros j u Hj. simpl. by rewrite list_lookup_fmap, Hj. }
  split; simpl.
  - destruct (outcome (settleAtStart (map call us))) as [o | ] eqn:Ho; [ | done ].
    apply refreshReactions_unique; [done | ]. intros vs ->.
    destruct Hp as (_ & _ & Hout). by apply Hout.
  - apply Forall_app. split; [done | ]. apply Forall_singleton.
    exists (username <$> us). split; [done | ].
    unfold waitingOf. change (map ?f us) with (f <$> us).
    apply Forall2_fmap. apply Forall_Forall2_diag, Forall_forall.
    intros u _ m. destruct (fetchUserStats_start _ _ _ _); [done | ]. by intros [= <-].
Qed.

Lemma handleAddUser_invariant env (a : App) :
  invariant a → invariant (handleAddUser env a).
Proof.
  intros [Hu Ht]. unfold handleAddUser.
  destruct (fromDate (state a)) as [from | ]; [ | done ].
  destruct (toDate (state a)) as [to | ]; [ | done ].
  destruct (truthyStr (usernameInput (state a))); [ | done ].
  destruct (fetchUserStats_start _ _ _ _) as [[r | e] | rq] eqn:Hcall; split; simpl;
    try done.
  - apply addUpdater_unique; [ | done ]. by apply fetchUserStats_start_username in Hcall.
  - apply Forall_app. split; [done | ]. by apply Forall_singleton.
Qed.

Lemma deliver_invariant (k i : nat) (o : RemoteOutcome) (a : App) :
  invariant a → invariant (deliver k i o a).
Proof.
  intros [Hu Ht]. unfold deliver.
  destruct (tasks a !! k) as [[name | waiting p | ] | ] eqn:Hk; [ | | done | done ].
  - split; simpl.
    + apply addUpdater_unique; [ apply fetchUserStats_resume_username | done ].
    + by apply Forall_insert.
  - destruct (waiting !! i) as [[name | ] | ] eqn:Hw; [ | done | done ].
    destruct (Forall_lookup_1 _ _ _ _ Ht Hk) as (names & Hp & Hwaiting).
    assert (Hname : names !! i = Some name).
    { destruct (Forall2_lookup_l _ _ _ _ _ Hwaiting Hw) as (n & Hn & Hm).
      by rewrite (Hm name eq_refl). }
    assert (Hp' : promiseOk names (resolveElement i (fetchUserStats_resume name o) p)).
    { apply resolveElement_ok; [done | ]. by rewrite fetchUserStats_resume_username. }
    split; simpl.
    + destruct (outcome p); [done | ].
      destruct (outcome (resolveElement _ _ _)) as [r | ] eqn:Hr; [ | done ].
      apply refreshReactions_unique; [done | ]. intros vs ->.
      destruct Hp' as (_ & _ & Hout). by apply Hout.
    + apply Forall_insert; [done | ]. exists names. split; [done | ].
      unfold waitingOf. rewrite <- (list_insert_id names i name Hname).
      by apply Forall2_insert.
Qed.

Lemma step_invariant env (a : App) (ev : Event) :
  invariant a → invariant (step env a ev).
Proof.
  intros Ha. destruct ev as [d | d | v | | name | k i o]; simpl.
  - apply refetchEffect_invariant; [ apply Ha | ]. split; [ apply Ha | apply Ha ].
  - apply refetchEffect_invariant; [ apply Ha | ]. split; [ apply Ha | apply Ha ].
  - split; [ apply Ha | apply Ha ].
  - by apply handleAddUser_invariant.
  - split; [ apply handleRemoveUser_unique, Ha | apply Ha ].
  - by apply deliver_invariant.
Qed.

Lemma run_invariant env (evs : list Event) (a : App) :
  invariant a → invariant (run env a evs).
Proof.
  revert a. induction evs as [ | ev evs IH]; intros a Ha; [done | ].
  simpl. by apply IH, step_invariant.
Qed.

Lemma filter_all {A} (P : A → Prop) `{!∀ x, Decision (P x)} (l : list A) :
  Forall P l → filter P l = l.
Proof.
  induction 1 as [ | x l Hx _ IH]; [done | ]. by rewrite filter_cons_True, IH.
Qed.

Lemma mount_invariant env :
  NoDup (toLowerCase <$> envUsers env) → invariant (mount env).
Proof.
  intros Hnames. unfold mount. apply refetchEffect_invariant; [ apply NoDup_nil_2 | ].
  split; [ | apply Forall_nil_2 ]. simpl. unfold seedEffect.
  destruct (decide _); [ | apply NoDup_nil_2 ].
  simpl. unfold seedUpdater. simpl. apply uniqueUsers_fmap.
  change (map ?f ?l) with (f <$> l). rewrite <- list_fmap_compose.
  rewrite filter_all.
  2: { apply Forall_forall. intros name _. apply not_elem_of_nil. }
  by rewrite <- list_fmap_compose.
Qed.

(** X20. When the names of the seed list differ from each other in lower
    case, no state the application can reach has two entries for one name,
    whatever the remote answers and in whatever order. *)
Theorem reachable_unique env (a : App) :
  NoDup (toLowerCase <$> envUsers env) → reachable env a →
  uniqueUsers (users (state a)).
Proof.
  intros Hnames [evs ->]. by apply run_invariant, mount_invariant.
Qed.

(** * More of the component *)

(** ** Adding and removing *)

Lemma filter_none {A} (P : A → Prop) `{!∀ x, Decision (P x)} (l : list A) :
  Forall (fun x => ¬ P x) l → filter P l = [].
Proof.
  induction 1 as [ | x l Hx _ IH]; [done | ]. by rewrite filter_cons_False.
Qed.

Lemma not_Exists_Forall (name : string) (l : list UserStats) :
  ¬ Exists (sameUser name) l → Forall (fun u => ¬ sameUser name u) l.
Proof. intros H. by apply Forall_Exists_neg. Qed.

(** [addUser] with a name and two calendar dates, whatever the list. *)
Lemma addUser_valid env (o : RemoteOutcome) (a : App) (t1 t2 : Z) :
  usernameInput (state a) ≠ "" →
  fromDate (state a) = Some (ValidDate t1) →
  toDate (state a) = Some (ValidDate t2) →
  exists rq,
    login rq = usernameInput (state a) ∧
    addUser env o a =
      {| state := handleAddUser_finish (usernameInput (state a))
                    (fetchUserStats_resume (usernameInput (state a)) o)
                    (setLoading true (state a));
         tasks := tasks a ++ [Finished];
         sent := sent a ++ [rq] |}.
Proof.
  intros Hname Hfrom Hto.
  destruct (handleAddUser_sends env a t1 t2 Hname Hfrom Hto) as (rq & Hlogin & Hsends).
  exists rq. split; [done | ].
  unfold addUser. rewrite Hsends. unfold deliver. simpl. rewrite lookup_snoc. simpl.
  f_equal. rewrite <- (Nat.add_0_r (List.length (tasks a))).
  by rewrite (insert_app_r (tasks a) [Adding (usernameInput (state a))] 0 Finished).
Qed.

(** X1. With two calendar dates, [addUser] for a name that is not in the
    list (compared in lower case) sends one request for it and appends what
    [fetchUserStats] makes of the answer at the end of the list, under the
    name as typed; the entries before keep their places, the busy flag is
    cleared and the text field is emptied. *)
Theorem addUser_appends env (o : RemoteOutcome) (a : App) (t1 t2 : Z) :
  usernameInput (state a) ≠ "" →
  fromDate (state a) = Some (ValidDate t1) →
  toDate (state a) = Some (ValidDate t2) →
  ¬ Exists (sameUser (usernameInput (state a))) (users (state a)) →
  users (state (addUser env o a))
  = users (state a) ++ [fetchUserStats_resume (usernameInput (state a)) o] ∧
  username (fetchUserStats_resume (usernameInput (state a)) o) = usernameInput (state a) ∧
  loading (state (addUser env o a)) = false ∧
  usernameInput (state (addUser env o a)) = "" ∧
  exists rq, login rq = usernameInput (state a) ∧
             sent (addUser env o a) = sent a ++ [rq].
Proof.
  intros Hname Hfrom Hto Habsent.
  destruct (addUser_valid env o a t1 t2 Hname Hfrom Hto) as (rq & Hlogin & ->).
  simpl. rewrite addUpdater_absent by done.
  split; [done | ]. split; [ apply fetchUserStats_resume_username | ]. eauto.
Qed.

Lemma addUser_appends_witness :
  users (state (addUser noEnv (found 3) carolNew))
  = users (state carolNew) ++ [fetchUserStats_resume "carol" (found 3)] ∧
  username (fetchUserStats_resume "carol" (found 3)) = "carol" ∧
  loading (state (addUser noEnv (found 3) carolNew)) = false ∧
  usernameInput (state (addUser noEnv (found 3) carolNew)) = "" ∧
  exists rq, login rq = "carol" ∧
             sent (addUser noEnv (found 3) carolNew) = sent carolNew ++ [rq].
Proof.
  apply (addUser_appends noEnv (found 3) carolNew 1704067200000 1706659200000).
  - discriminate.
  - reflexivity.
  - reflexivity.
  - intros H. apply Exists_cons in H as [H | H]; [discriminate H | ].
    apply Exists_cons in H as [H | H]; [discriminate H | ]. by apply Exists_nil in H.
Defined.

(** X2. Adding a name and then adding it again, in any mix of upper and
    lower case and whatever the remote answers, gives the list of the first
    add: the second request is sent and its answer dropped. *)
Theorem addUser_twice env (o1 o2 : RemoteOutcome) (a : App) (t1 t2 : Z)
    (again : string) :
  usernameInput (state a) ≠ "" →
  fromDate (state a) = Some (ValidDate t1) →
  toDate (state a) = Some (ValidDate t2) →
  toLowerCase again = toLowerCase (usernameInput (state a)) →
  users (state (addUser env o2 (withState (setUsername again) (addUser env o1 a))))
  = users (state (addUser env o1 a)).
Proof.
  intros Hname Hfrom Hto Hagain.
  destruct (addUser_valid env o1 a t1 t2 Hname Hfrom Hto) as (rq & _ & ->).
  set (name := usernameInput (state a)) in *.
  set (a1 := withState (setUsername again) _).
  assert (Hpresent : Exists (sameUser again) (users (state a1))).
  { simpl. unfold addUpdater. destruct (decide _) as [Hin | Hout].
    - apply Exists_exists in Hin as (u & Hu & Hsame). apply Exists_exists.
      exists u. split; [done | ]. unfold sameUser in *. congruence.
    - apply Exists_app. right. apply Exists_cons_hd. unfold sameUser.
      by rewrite fetchUserStats_resume_username. }
  destruct (addUser_users env o2 a1) as [H | [r H]]; [done | ].
  rewrite H. by apply addUpdater_present.
Qed.

Lemma addUser_twice_witness :
  users (state (addUser noEnv nullUser
                  (withState (setUsername "CAROL") (addUser noEnv (found 3) carolNew))))
  = users (state (addUser noEnv (found 3) carolNew)).
Proof.
  apply (addUser_twice noEnv (found 3) nullUser carolNew 1704067200000 1706659200000 "CAROL").
  - discriminate.
  - reflexivity.
  - reflexivity.
  - reflexivity.
Defined.

(** X3. With a name typed and an Invalid Date in the range, [addUser] sets
    the busy flag and stops: [fetchUserStats] rejects before any request,
    nothing after the [await] runs, so the flag is not cleared, the list
    and the text field stay as they are and no handler is left to finish. *)
Theorem addUser_invalid_date_stuck env (o : RemoteOutcome) (a : App) :
  usernameInput (state a) ≠ "" →
  (fromDate (state a) = Some InvalidDate ∧ is_Some (toDate (state a))) ∨
  (is_Some (fromDate (state a)) ∧ toDate (state a) = Some InvalidDate) →
  addUser env o a = withState (setLoading true) a ∧
  loading (state (addUser env o a)) = true.
Proof.
  intros Hname Hdates.
  assert (H : handleAddUser env a = withState (setLoading true) a).
  { unfold handleAddUser, fetchUserStats_start.
    apply truthyStr_true in Hname. rewrite Hname.
    destruct Hdates as [[-> [d ->]] | [[d ->] ->]]; [done | ].
    destruct d as [t | ]; [ | done ].
    by destruct (isoDay_valid t "T00:00:00Z") as [day ->]. }
  unfold addUser. rewrite H. rewrite deliver_no_task by apply lookup_length.
  by rewrite <- H, H.
Qed.

Lemma addUser_invalid_date_stuck_witness :
  addUser noEnv (found 3) carolInvalidFrom = withState (setLoading true) carolInvalidFrom ∧
  loading (state (addUser noEnv (found 3) carolInvalidFrom)) = true.
Proof.
  apply (addUser_invalid_date_stuck noEnv (found 3) carolInvalidFrom).
  - discriminate.
  - left. split; [reflexivity | by exists jan31].
Defined.

(** X4. Removing a name right after adding it, when it was not in the list
    before, gives back the list as it was. *)
Theorem addUser_then_remove env (o : RemoteOutcome) (a : App) (t1 t2 : Z) :
  usernameInput (state a) ≠ "" →
  fromDate (state a) = Some (ValidDate t1) →
  toDate (state a) = Some (ValidDate t2) →
  ¬ Exists (sameUser (usernameInput (state a))) (users (state a)) →
  users (handleRemoveUser (usernameInput (state a)) (state (addUser env o a)))
  = users (state a).
Proof.
  intros Hname Hfrom Hto Habsent.
  destruct (addUser_valid env o a t1 t2 Hname Hfrom Hto) as (rq & _ & ->).
  unfold handleRemoveUser. apply truthyStr_true in Hname. rewrite Hname. simpl.
  rewrite addUpdater_absent by done.
  rewrite filter_app, filter_all by by apply not_Exists_Forall.
  rewrite filter_cons_False, filter_nil; [ apply app_nil_r | ].
  intros H. apply H. unfold sameUser. by rewrite fetchUserStats_resume_username.
Qed.

Lemma addUser_then_remove_witness :
  users (handleRemoveUser "carol" (state (addUser noEnv (found 3) carolNew)))
  = users (state carolNew).
Proof.
  apply (addUser_then_remove noEnv (found 3) carolNew 1704067200000 1706659200000).
  - discriminate.
  - reflexivity.
  - reflexivity.
  - intros H. apply Exists_cons in H as [H | H]; [discriminate H | ].
    apply Exists_cons in H as [H | H]; [discriminate H | ]. by apply Exists_nil in H.
Defined.

Lemma filter_sameUser_unique (name : string) (l : list UserStats) :
  uniqueUsers l → (List.length (filter (sameUser name) l) <= 1)%nat.
Proof.
  unfold uniqueUsers. induction l as [ | u l IH]; simpl; intros Hl; [ lia | ].
  apply NoDup_cons in Hl as [Hu Hl].
  destruct (decide (sameUser name u)) as [Hsame | Hother].
  - rewrite filter_cons_True by done. rewrite filter_none; [ simpl; lia | ].
    apply Forall_forall. intros v Hv Hsame'. apply Hu.
    apply list_elem_of_In, in_map_iff. exists v.
    split; [ unfold sameUser in *; congruence | by apply list_elem_of_In ].
  - rewrite filter_cons_False by done. by apply IH.
Qed.

Lemma filter_sameUser_present (name : string) (l : list UserStats) :
  Exists (sameUser name) l → (1 <= List.length (filter (sameUser name) l))%nat.
Proof.
  intros H. apply Exists_exists in H as (u & Hu & Hsame).
  assert (Hin : u ∈ filter (sameUser name) l) by by apply list_elem_of_filter.
  destruct (filter (sameUser name) l); [ by apply elem_of_nil in Hin | simpl; lia ].
Qed.

(** X5. In a list without duplicates, removing a name that is in the list
    removes one entry and no more. *)
Theorem handleRemoveUser_removes_one (name : string) (s : State) :
  name ≠ "" → uniqueUsers (users s) → Exists (sameUser name) (users s) →
  S (List.length (users (handleRemoveUser name s))) = List.length (users s).
Proof.
  intros Hname Hunique Hpresent. unfold handleRemoveUser.
  apply truthyStr_true in Hname. rewrite Hname. simpl.
  pose proof (length_filter_split (sameUser name) (users s)).
  pose proof (filter_sameUser_unique name (users s) Hunique).
  pose proof (filter_sameUser_present name (users s) Hpresent).
  lia.
Qed.

Lemma handleRemoveUser_removes_one_witness :
  S (List.length (users (handleRemoveUser "bob" (state bobAgain))))
  = List.length (users (state bobAgain)).
Proof.
  apply (handleRemoveUser_removes_one "bob" (state bobAgain)).
  - discriminate.
  - unfold uniqueUsers. simpl. apply NoDup_cons. split.
    + intros H. apply list_elem_of_singleton in H. discriminate H.
    + apply NoDup_singleton.
  - apply Exists_cons_tl, Exists_cons_hd. reflexivity.
Defined.

(** X6. Removing a name twice is removing it once; and removing a name that
    no entry carries, in any case, leaves the whole state as it is. *)
Theorem handleRemoveUser_idempotent (name : string) (s : State) :
  handleRemoveUser name (handleRemoveUser name s) = handleRemoveUser name s ∧
  (¬ Exists (sameUser name) (users s) → handleRemoveUser name s = s).
Proof.
  unfold handleRemoveUser. destruct (truthyStr name) eqn:Hname.
  - unfold setUsers. simpl. split.
    + f_equal. apply filter_all. apply Forall_forall. intros u Hu.
      by apply list_elem_of_filter in Hu as [? _].
    + intros Habsent. rewrite filter_all by by apply not_Exists_Forall. by destruct s.
  - done.
Qed.

(** ** Seeding *)

Lemma seedUpdater_seedUpdater (names : list string) (prev : list UserStats) :
  seedUpdater names (seedUpdater names prev) = seedUpdater names prev.
Proof.
  rewrite (seedUpdater_spec names (seedUpdater names prev)).
  rewrite filter_none; [ apply app_nil_r | ].
  apply Forall_forall. intros name Hname Habsent. apply Habsent.
  rewrite seedUpdater_spec. apply Exists_app.
  destruct (decide (Exists (sameUser name) prev)) as [Hin | Hout]; [ by left | right ].
  apply Exists_exists. exists (unfetched name). split; [ | done ].
  apply list_elem_of_In, in_map, list_elem_of_In. by apply list_elem_of_filter.
Qed.

(** X7. Running the seed effect a second time changes nothing: every
    configured name is in the list by then. *)
Theorem seedEffect_idempotent env (s : State) :
  seedEffect env (seedEffect env s) = seedEffect env s.
Proof.
  unfold seedEffect. destruct (decide _) as [Hlen | Hlen]; [ | done ].
  unfold setUsers. simpl. by rewrite seedUpdater_seedUpdater.
Qed.

(** X8. Seeding keeps the entries it finds, in their places, in front of
    the ones it adds; and when the configured names differ from each other
    in lower case, a list without duplicates stays without duplicates. *)
Theorem seedEffect_keeps env (s : State) :
  users s `prefix_of` users (seedEffect env s) ∧
  (NoDup (toLowerCase <$> envUsers env) → uniqueUsers (users s) →
   uniqueUsers (users (seedEffect env s))).
Proof.
  unfold seedEffect. destruct (decide _) as [Hlen | Hlen]; [ | done ].
  simpl. rewrite seedUpdater_spec. split; [ by apply prefix_app_r | ].
  intros Hnames Hunique. unfold uniqueUsers. rewrite map_app. apply NoDup_app.
  split; [done | ].
  change (map ?f ?l) with (f <$> l). rewrite <- list_fmap_compose. split.
  - intros x Hx Hx'. apply list_elem_of_fmap in Hx' as (name & -> & Hname).
    apply list_elem_of_filter in Hname as [Habsent _]. apply Habsent.
    by apply elem_of_lowered.
  - eapply sublist_NoDup; [ exact Hnames | ]. apply fmap_sublist, sublist_filter.
Qed.

Lemma seedEffect_keeps_witness :
  uniqueUsers (users (seedEffect aliceBobEnv initialState)).
Proof.
  apply (seedEffect_keeps aliceBobEnv initialState).
  - apply NoDup_cons. split.
    + intros H. apply list_elem_of_singleton in H. discriminate H.
    + apply NoDup_singleton.
  - apply NoDup_nil_2.
Defined.

Lemma handleRemoveUser_idempotent_witness :
  handleRemoveUser "carol" (state bobAgain) = state bobAgain.
Proof.
  apply (handleRemoveUser_idempotent "carol" (state bobAgain)).
  intros H. apply Exists_cons in H as [H | H]; [discriminate H | ].
  apply Exists_cons in H as [H | H]; [discriminate H | ]. by apply Exists_nil in H.
Defined.

Lemma trimEnd_occurs (c : ascii) (s : string) : occurs c (trimEnd s) → occurs c s.
Proof.
  induction s as [ | c' s IH]; simpl; [done | ].
  destruct (trimEnd s) as [ | c'' t].
  - destruct (isWhiteSpace c'); simpl; tauto.
  - simpl in *. tauto.
Qed.

Lemma trimStart_occurs (c : ascii) (s : string) : occurs c (trimStart s) → occurs c s.
Proof.
  induction s as [ | c' s IH]; simpl; [done | ].
  destruct (isWhiteSpace c'); simpl; tauto.
Qed.

Lemma trimEnd_trimEnd (s : string) : trimEnd (trimEnd s) = trimEnd s.
Proof.
  induction s as [ | c s IH]; simpl; [done | ].
  destruct (trimEnd s) as [ | c' t] eqn:Ht.
  - destruct (isWhiteSpace c) eqn:Hc; simpl; [done | by rewrite Hc].
  - change (trimEnd (String c (String c' t))) with
      (match trimEnd (String c' t) with
       | EmptyString => if isWhiteSpace c then EmptyString else String c EmptyString
       | t' => String c t'
       end).
    by rewrite IH.
Qed.

(** Trimming twice is trimming once. *)
Lemma trim_trim (s : string) : trim (trim s) = trim s.
Proof.
  unfold trim.
  assert (Hstart : forall t, trimStart (trimStart t) = trimStart t).
  { induction t as [ | c t IH]; simpl; [done | ].
    destruct (isWhiteSpace c) eqn:Hc; [done | ]. simpl. by rewrite Hc. }
  assert (Hkeep : forall t, trimStart t = t → trimStart (trimEnd t) = trimEnd t).
  { intros [ | c t]; simpl; [done | ]. destruct (isWhiteSpace c) eqn:Hc.
    - intros Ht. exfalso.
      assert (Hlen : (String.length (trimStart t) <= String.length t)%nat).
      { clear. induction t as [ | c' t IH]; simpl; [lia | ].
        destruct (isWhiteSpace c'); simpl; lia. }
      rewrite Ht in Hlen. simpl in Hlen. lia.
    - intros _. destruct (trimEnd t); simpl; by rewrite Hc. }
  rewrite Hkeep by apply Hstart. apply trimEnd_trimEnd.
Qed.

(** X9. Every name the seed effect reads from the configuration is not
    empty, has no white space at either end (trimming it again changes
    nothing) and holds no comma. *)
Theorem envUsers_clean env :
  Forall (fun name => name ≠ "" ∧ trim name = name ∧ ¬ occurs "," name) (envUsers env).
Proof.
  unfold envUsers. apply Forall_forall. intros name Hname.
  apply list_elem_of_filter in Hname as [Hne Hname].
  apply list_elem_of_In, in_map_iff in Hname as (piece & <- & Hpiece).
  split; [ by apply truthyStr_true | ]. split; [ apply trim_trim | ].
  intros Hcomma. apply trimEnd_occurs, trimStart_occurs in Hcomma.
  apply list_elem_of_In in Hpiece.
  pose proof (split_pieces "," (default "" (VITE_GITHUB_USERS env))) as Hall.
  by apply (proj1 (Forall_forall _ _) Hall piece Hpiece).
Qed.

(** ** Which result for which answer *)

Lemma fetchUserStats_resume_trichotomy (name : string) (o : RemoteOutcome) :
  (successShape o ∧ ¬ failureShape o ∧
   exists c, fetchUserStats_resume name o
             = {| username := name; stats := Some c; error := None |}) ∨
  (failureShape o ∧ ¬ successShape o ∧ fetchUserStats_resume name o = remoteError name) ∨
  (¬ successShape o ∧ ¬ failureShape o ∧
   fetchUserStats_resume name o = transportError name).
Proof.
  destruct o as [e | [data | e]].
  - right. right. split; [ by intros (? & ? & ? & ? & ? & _) | ].
    split; [ by intros (? & ? & ? & _) | done ].
  - unfold fetchUserStats_resume, tryBody. simpl.
    destruct (get data "errors") as [errors | e] eqn:Herrors; simpl.
    + destruct (truthy errors) eqn:Hte; simpl.
      * right. left. split; [ exists data, errors; auto | ]. split; [ | done ].
        intros (? & ? & ? & ? & [= <-] & H1 & H2 & _). congruence.
      * destruct (get data "data") as [d | e] eqn:Hd; simpl.
        -- destruct (get d "user") as [user | e] eqn:Hu; simpl.
           ++ destruct (truthy user) eqn:Htu; simpl.
              ** left. split; [ by exists data, errors, d, user | ]. split.
                 --- intros (? & ? & [= <-] & H1 & [H2 | (? & ? & H3 & H4 & H5)]);
                       congruence.
                 --- destruct (get user "contributionsCollection") as [c | e] eqn:Hc;
                       simpl; [ eauto | ].
                     destruct user; simpl in Htu, Hc; discriminate.
              ** right. left. split.
                 --- exists data, errors. split; [done | ]. split; [done | ].
                     right. by exists d, user.
                 --- split; [ | done ].
                     intros (? & ? & ? & ? & [= <-] & _ & _ & H3 & H4 & H5). congruence.
           ++ right. right. split.
              ** intros (? & ? & ? & ? & [= <-] & _ & _ & H3 & H4 & _). congruence.
              ** split; [ | done ].
                 intros (? & ? & [= <-] & H1 & [H2 | (? & ? & H3 & H4 & _)]); congruence.
        -- right. right. split.
           ++ intros (? & ? & ? & ? & [= <-] & _ & _ & H3 & _). congruence.
           ++ split; [ | done ].
              intros (? & ? & [= <-] & H1 & [H2 | (? & ? & H3 & _)]); congruence.
    + right. right. split.
      * intros (? & ? & ? & ? & [= <-] & H1 & _). congruence.
      * split; [ | done ]. intros (? & ? & [= <-] & H1 & _). congruence.
  - right. right. split; [ by intros (? & ? & ? & ? & ? & _) | ].
    split; [ by intros (? & ? & ? & _) | done ].
Qed.

(** X10. What the [try] of [fetchUserStats] returns is decided by the shape
    of the answer alone: a result without error exactly for a parsed
    response with falsy [errors] and truthy [data.user]; "User not found or
    API error." exactly for a parsed response with truthy [errors], or with
    falsy [errors] and a [data.user] that reads as falsy; "Network or API
    error." in every other case. *)
Theorem fetchUserStats_resume_decides (name : string) (o : RemoteOutcome) :
  (error (fetchUserStats_resume name o) = None ↔ successShape o) ∧
  (fetchUserStats_resume name o = remoteError name ↔ failureShape o) ∧
  (fetchUserStats_resume name o = transportError name
   ↔ ¬ successShape o ∧ ¬ failureShape o).
Proof.
  destruct (fetchUserStats_resume_trichotomy name o)
    as [(Hs & Hf & c & ->) | [(Hf & Hs & ->) | (Hs & Hf & ->)]].
  - split; [done | ]. split; (split; [discriminate | ]); [done | ].
    by intros [? _].
  - split; [ by split | ]. split; [done | ]. split; [discriminate | ]. by intros [_ ?].
  - split; [ by split | ]. split; [ | done ]. split; [discriminate | done].
Qed.

(** ** The request *)

Lemma append_cons (x : ascii) (a b : string) : String x a +:+ b = String x (a +:+ b).
Proof. reflexivity. Qed.

Lemma append_nil (b : string) : "" +:+ b = b.
Proof. reflexivity. Qed.

Lemma append_assoc (a b c : string) : (a +:+ b) +:+ c = a +:+ (b +:+ c).
Proof.
  induction a as [ | x a IH]; [done | ]. rewrite !append_cons. by f_equal.
Qed.

Lemma occurs_append (c : ascii) (a b : string) :
  occurs c (a +:+ b) ↔ occurs c a ∨ occurs c b.
Proof.
  induction a as [ | x a IH]; [ rewrite append_nil; simpl; tauto | ].
  rewrite append_cons. simpl. rewrite IH. tauto.
Qed.

(** The first piece of a split is what stands before the first separator. *)
Lemma head_split (sep : ascii) (a b : string) :
  ¬ occurs sep a → head (split sep (a +:+ String sep b)) = Some a.
Proof.
  induction a as [ | x a IH]; intros Ha.
  - rewrite append_nil. simpl. by rewrite Ascii.eqb_refl.
  - rewrite append_cons. simpl in *.
    destruct (Ascii.eqb_spec x sep) as [-> | Hx]; [ tauto | ].
    assert (Hrest : head (split sep (a +:+ String sep b)) = Some a) by (apply IH; tauto).
    destruct (split sep (a +:+ String sep b)); simpl in *; congruence.
Qed.

Lemma digit_not_T (n : Z) : digit n ≠ "T"%char.
Proof.
  unfold digit. pose proof (Z.mod_pos_bound n 10 ltac:(lia)) as Hn.
  assert (H : n mod 10 = 0 ∨ n mod 10 = 1 ∨ n mod 10 = 2 ∨ n mod 10 = 3 ∨ n mod 10 = 4 ∨
              n mod 10 = 5 ∨ n mod 10 = 6 ∨ n mod 10 = 7 ∨ n mod 10 = 8 ∨ n mod 10 = 9)
    by lia.
  repeat (destruct H as [-> | H]; [ discriminate | ]). rewrite H. discriminate.
Qed.

Lemma pad_not_T (width : nat) (n : Z) : ¬ occurs "T" (pad width n).
Proof.
  revert n. induction width as [ | w IH]; intros n; simpl; [ tauto | ].
  rewrite occurs_append. simpl. intros [H | [H | []]]; [ by apply (IH (n / 10)) | ].
  by apply (digit_not_T n).
Qed.

Lemma dayString_not_T (days : Z) : ¬ occurs "T" (dayString days).
Proof.
  unfold dayString. destruct (civilFromDays days) as [[y m] d]. cbv beta iota.
  rewrite !occurs_append. unfold isoYear.
  intros [H | [H | [H | [H | H]]]].
  - destruct ((0 <=? y) && (y <=? 9999)); [ by apply pad_not_T in H | ].
    apply occurs_append in H as [H | H]; [ | by apply pad_not_T in H ].
    destruct (y <? 0); simpl in H; destruct H as [H | []]; discriminate H.
  - simpl in H. destruct H as [H | []]. discriminate H.
  - by apply pad_not_T in H.
  - simpl in H. destruct H as [H | []]. discriminate H.
  - by apply pad_not_T in H.
Qed.

(** Of a date only the day, in universal time, goes into the request. *)
Lemma isoDay_dayString (t : Z) (suffix : string) :
  isoDay (ValidDate t) suffix = Return (dayString (t / msPerDay) +:+ suffix).
Proof.
  unfold isoDay. simpl. unfold mret, exc_ret. do 2 f_equal.
  assert (H : exists rest, isoString t = dayString (t / msPerDay) +:+ String "T" rest).
  { unfold isoString, dayString. destruct (civilFromDays (t / msPerDay)) as [[y m] d].
    cbv beta iota. eexists. rewrite !append_assoc, !append_cons, !append_nil.
    reflexivity. }
  destruct H as [rest ->]. by rewrite head_split by apply dayString_not_T.
Qed.

(** X11. A call with a name and two calendar dates sends this request: the
    name as it is for [login]; the day of the first date, in universal
    time, followed by [T00:00:00Z]; the day of the second date followed by
    [T23:59:59Z]; and the bearer header exactly when a token that is not
    empty is configured. The time of day of the two dates does not reach
    the remote. *)
Theorem fetchUserStats_request env (name : string) (t1 t2 : Z) :
  name ≠ "" →
  fetchUserStats_start env name (Some (ValidDate t1)) (Some (ValidDate t2))
  = Suspended
      {| authorization :=
           match VITE_GITHUB_TOKEN env with
           | Some tok => if decide (tok = "") then None else Some ("Bearer " +:+ tok)
           | None => None
           end;
         login := name;
         from_ := dayString (t1 / msPerDay) +:+ "T00:00:00Z";
         to_ := dayString (t2 / msPerDay) +:+ "T23:59:59Z" |}.
Proof.
  intros Hname. unfold fetchUserStats_start.
  apply truthyStr_true in Hname. rewrite Hname, !isoDay_dayString.
  do 2 f_equal. destruct (VITE_GITHUB_TOKEN env) as [tok | ]; [ | done ].
  destruct (decide (tok = "")) as [-> | Htok]; [done | ].
  apply truthyStr_true in Htok. by rewrite Htok.
Qed.

Lemma fetchUserStats_request_witness :
  fetchUserStats_start aliceBobEnv "alice" (Some (ValidDate 1704067200000))
    (Some (ValidDate 1706700000000))
  = Suspended
      {| authorization := Some "Bearer tok";
         login := "alice";
         from_ := "2024-01-01T00:00:00Z";
         to_ := "2024-01-31T23:59:59Z" |}.
Proof.
  apply (fetchUserStats_request aliceBobEnv "alice" 1704067200000 1706700000000).
  discriminate.
Defined.

(** ** What holds in every state *)

Lemma reachable_unique_witness :
  uniqueUsers (users (state (run aliceBobEnv (mount aliceBobEnv) aSession))).
Proof.
  apply (reachable_unique aliceBobEnv (run aliceBobEnv (mount aliceBobEnv) aSession)).
  - change (NoDup ["alice"; "bob"]). apply NoDup_cons. split.
    + intros H. apply list_elem_of_singleton in H. discriminate H.
    + apply NoDup_singleton.
  - by exists aSession.
Defined.

Lemma omap_id_Forall (P : UserStats → Prop) (vs : list (option UserStats)) :
  Forall (fun v => forall r, v = Some r → P r) vs → Forall P (omap id vs).
Proof.
  induction 1 as [ | v vs Hv _ IH]; [ apply Forall_nil_2 | ].
  destruct v as [r | ]; csimpl; [ | done ]. apply Forall_cons. split; [ by apply Hv | done ].
Qed.

Lemma resolveElement_named (i : nat) (x : UserStats) (p : PromiseAll) :
  named x →
  Forall (fun v => forall r, v = Some r → named r) (values p) →
  (forall vs, outcome p = Some (Fulfilled vs) → Forall named vs) →
  Forall (fun v => forall r, v = Some r → named r) (values (resolveElement i x p)) ∧
  forall vs, outcome (resolveElement i x p) = Some (Fulfilled vs) → Forall named vs.
Proof.
  intros Hx Hvs Hout. unfold resolveElement.
  destruct (values p !! i) as [[r | ] | ]; try done.
  assert (Hvs' : Forall (fun v => forall r, v = Some r → named r)
                   (<[i := Some x]> (values p))).
  { apply Forall_insert; [done | ]. by intros r [= <-]. }
  split; [done | ]. simpl. intros vs.
  destruct (outcome p) as [o | ]; [ apply Hout | ].
  destruct (pred (remainingElementsCount p)); [ | done ].
  intros [= <-]. by apply omap_id_Forall.
Qed.

Lemma settleFrom_named env (from to : option Date) (us : list UserStats) (i : nat)
    (acc : PromiseAll) :
  Forall named us →
  Forall (fun v => forall r, v = Some r → named r) (values acc) →
  (forall vs, outcome acc = Some (Fulfilled vs) → Forall named vs) →
  Forall (fun v => forall r, v = Some r → named r)
    (values (settleFrom i
               (map (fun u => fetchUserStats_start env (username u) from to) us) acc)) ∧
  forall vs,
    outcome (settleFrom i
               (map (fun u => fetchUserStats_start env (username u) from to) us) acc)
    = Some (Fulfilled vs) → Forall named vs.
Proof.
  intros Hus. revert i acc. induction Hus as [ | u us Hu _ IH]; intros i acc Hvs Hout;
    simpl; [done | ].
  destruct (fetchUserStats_start env (username u) from to) as [[r | e] | rq] eqn:Hcall.
  - apply fetchUserStats_start_username in Hcall.
    destruct (resolveElement_named i r acc) as [Hvs' Hout']; try done.
    + unfold named. by rewrite Hcall.
    + by apply IH.
  - apply IH; [done | ]. simpl. intros vs. destruct (outcome acc); [ apply Hout | done ].
  - by apply IH.
Qed.

Lemma refetchEffect_named env (snap : State) (a : App) :
  Forall named (users snap) → allNamed a → allNamed (refetchEffect env snap a).
Proof.
  intros Hsnap [Hu Ht]. unfold refetchEffect.
  destruct (fromDate snap) as [from | ]; [ | done ].
  destruct (toDate snap) as [to | ]; [ | done ].
  destruct (users snap) as [ | u0 rest] eqn:Hus; [done | ].
  rewrite <- Hus in Hsnap |- *.
  destruct (settleFrom_named env (Some from) (Some to) (users snap) 0
              (promiseAll_new (List.length
                 (map (fun u => fetchUserStats_start env (username u) (Some from) (Some to))
                    (users snap))))) as [Hvs Hout]; [done | | | ].
  { simpl. apply Forall_forall. intros v Hv. apply elem_of_replicate in Hv as [-> _]. done. }
  { simpl. intros vs. destruct (List.length _); [ | done ].
    intros [= <-]. apply Forall_nil_2. }
  split; simpl.
  - fold (settleAtStart (map (fun u => fetchUserStats_start env (username u)
                                         (Some from) (Some to)) (users snap))) in *.
    destruct (outcome (settleAtStart _)) as [[vs | e] | ] eqn:Ho; simpl; try done.
    by apply Hout.
  - apply Forall_app. split; [done | ]. apply Forall_singleton. split; [ | done ].
    change (map ?f (users snap)) with (f <$> users snap) at 1.
    apply Forall_fmap, Forall_forall. intros u Hu' m. simpl.
    destruct (fetchUserStats_start _ _ _ _); [done | ]. intros [= <-].
    by apply (proj1 (Forall_forall _ _) Hsnap).
Qed.

Lemma addUpdater_named (name : string) (r : UserStats) (prev : list UserStats) :
  named r → Forall named prev → Forall named (addUpdater name r prev).
Proof.
  intros Hr Hprev. unfold addUpdater. destruct (decide _); [done | ].
  apply Forall_app. split; [done | by apply Forall_singleton].
Qed.

Lemma step_named env (a : App) (ev : Event) : allNamed a → allNamed (step env a ev).
Proof.
  intros [Hu Ht]. destruct ev as [d | d | v | | name | k i o]; simpl.
  - by apply refetchEffect_named.
  - by apply refetchEffect_named.
  - done.
  - unfold handleAddUser.
    destruct (fromDate (state a)) as [from | ]; [ | done ].
    destruct (toDate (state a)) as [to | ]; [ | done ].
    destruct (truthyStr (usernameInput (state a))) eqn:Hname; [ | done ].
    apply truthyStr_true in Hname.
    destruct (fetchUserStats_start _ _ _ _) as [[r | e] | rq] eqn:Hcall; split; simpl;
      try done.
    + apply addUpdater_named; [ | done ]. apply fetchUserStats_start_username in Hcall.
      unfold named. by rewrite Hcall.
    + apply Forall_app. split; [done | by apply Forall_singleton].
  - split; [ | done ]. unfold handleRemoveUser. destruct (truthyStr name); [ | done ].
    simpl. apply Forall_forall. intros u Hu'. apply list_elem_of_filter in Hu' as [_ Hu'].
    by apply (proj1 (Forall_forall _ _) Hu).
  - unfold deliver.
    destruct (tasks a !! k) as [[name | waiting p | ] | ] eqn:Hk; [ | | done | done ].
    + pose proof (Forall_lookup_1 _ _ _ _ Ht Hk) as Hname. simpl in Hname.
      split; simpl; [ | by apply Forall_insert ].
      apply addUpdater_named; [ | done ]. unfold named.
      by rewrite fetchUserStats_resume_username.
    + destruct (waiting !! i) as [[name | ] | ] eqn:Hw; [ | done | done ].
      destruct (Forall_lookup_1 _ _ _ _ Ht Hk) as (Hwaiting & Hvs & Hout).
      pose proof (Forall_lookup_1 _ _ _ _ Hwaiting Hw name eq_refl) as Hname.
      destruct (resolveElement_named i (fetchUserStats_resume name o) p)
        as [Hvs' Hout']; try done.
      { unfold named. by rewrite fetchUserStats_resume_username. }
      split; simpl.
      * destruct (outcome p); [done | ].
        destruct (outcome (resolveElement _ _ _)) as [[vs | e] | ] eqn:Hr; simpl; try done.
        by apply Hout'.
      * apply Forall_insert; [done | ]. split; [ | done ].
        apply Forall_insert; [done | ]. by intros.
Qed.

Lemma mount_named env : allNamed (mount env).
Proof.
  unfold mount. apply refetchEffect_named; [ apply Forall_nil_2 | ].
  split; [ | apply Forall_nil_2 ]. simpl. unfold seedEffect.
  destruct (decide _); [ | apply Forall_nil_2 ].
  simpl. apply Forall_forall. intros u Hu.
  apply list_elem_of_In, in_map_iff in Hu as (name & <- & Hname).
  apply list_elem_of_In, list_elem_of_filter in Hname as [_ Hname].
  unfold envUsers in Hname. apply list_elem_of_filter in Hname as [Hname _].
  by apply truthyStr_true.
Qed.

(** X12. No state the application can reach holds an entry with an empty
    username: the names of the seed list are not empty, the handler of the
    add returns at its guard for an empty name, and every result carries
    the name it was asked for. *)
Theorem reachable_named env (a : App) :
  reachable env a → Forall (fun u => username u ≠ "") (users (state a)).
Proof.
  intros [evs ->].
  assert (H : allNamed (run env (mount env) evs)); [ | apply H ].
  generalize (mount_named env). generalize (mount env).
  induction evs as [ | ev evs IH]; intros a Ha; [done | ].
  simpl. by apply IH, step_named.
Qed.

Lemma reachable_named_witness :
  Forall (fun u => username u ≠ "")
    (users (state (run aliceBobEnv (mount aliceBobEnv) aSession))).
Proof.
  apply (reachable_named aliceBobEnv (run aliceBobEnv (mount aliceBobEnv) aSession)).
  by exists aSession.
Defined.

(** ** The refetch among other events *)

Section Refetch.
Variable env : Env.
Variable os : nat -> RemoteOutcome.
Variables t1 t2 : Z.

Lemma refetching_ext (us : list UserStats) (k : nat) (answered answered' : list nat)
    (a : App) :
  (forall i, i ∈ answered ↔ i ∈ answered') →
  refetching os us k answered a → refetching os us k answered' a.
Proof.
  intros Hext (waiting & p & Htask & Hc & Hlen & Hslots).
  exists waiting, p. do 3 (split; [done | ]). intros i u Hu.
  destruct (Hslots i u Hu) as [[Hi Hv] | (Hi & Hv & Hw)].
  - left. split; [ by apply Hext | done ].
  - right. split; [ by rewrite <- Hext | done ].
Qed.

(** A hole means that the promise has not settled. *)
Lemma consistent_hole (p : PromiseAll) (i : nat) :
  consistent p → values p !! i = Some None → outcome p = None.
Proof.
  intros [_ Hout] Hi. rewrite Hout.
  destruct (holes (values p)) eqn:Hholes; [ | done ].
  by destruct (holes_filled _ i Hholes).
Qed.

(** The effect on a list of named entries: the busy flag is set, every
    position is a hole, and nothing has settled. *)
Lemma refetchEffect_refetching (a : App) :
  fromDate (state a) = Some (ValidDate t1) →
  toDate (state a) = Some (ValidDate t2) →
  users (state a) ≠ [] → Forall named (users (state a)) →
  refetching os (users (state a)) (List.length (tasks a)) []
    (refetchEffect env (state a) a) ∧
  state (refetchEffect env (state a) a) = setLoading true (state a).
Proof.
  intros Hfrom Hto Hne Hnamed. unfold refetchEffect. rewrite Hfrom, Hto.
  destruct (users (state a)) as [ | u0 rest] eqn:Hus; [done | ].
  rewrite <- Hus in Hnamed |- *. set (us := users (state a)) in *.
  destruct (settleFrom_spec env t1 t2 us 0 (promiseAll_new (List.length us)))
    as (Hc & Hlen & _ & Hat).
  { apply consistent_new. }
  { intros j Hj. simpl. apply lookup_replicate_2. lia. }
  simpl in Hlen. rewrite length_replicate in Hlen.
  assert (Hholes : forall i u, us !! i = Some u →
            values (settleAtStart
                      (map (fun u => fetchUserStats_start env (username u)
                                       (Some (ValidDate t1)) (Some (ValidDate t2))) us)) !! i
            = Some None).
  { intros i u Hu. unfold settleAtStart. rewrite length_map.
    specialize (Hat i u Hu). simpl in Hat. rewrite Hat.
    pose proof (Forall_lookup_1 _ _ _ _ Hnamed Hu) as Hname.
    by destruct (fetchUserStats_start_suspends env _ t1 t2 Hname) as (rq & -> & _). }
  unfold settleAtStart in *. rewrite length_map in *. split.
  - eexists _, _. split; [ simpl; apply lookup_snoc | ].
    split; [done | ]. split; [done | ].
    intros i u Hu. right. split; [ apply not_elem_of_nil | ]. split; [ by eapply Hholes | ].
    change (map ?f us) with (f <$> us). rewrite list_lookup_fmap, Hu. simpl.
    pose proof (Forall_lookup_1 _ _ _ _ Hnamed Hu) as Hname.
    by destruct (fetchUserStats_start_suspends env _ t1 t2 Hname) as (rq & -> & _).
  - simpl. rewrite (consistent_hole _ O Hc); [done | ].
    apply (Hholes O u0). subst us. by rewrite Hus.
Qed.

(** Events that are no answer to the handler [k] leave it as it is. *)
Lemma step_other_task (a : App) (ev : Event) (k : nat) (t : Task) :
  tasks a !! k = Some t →
  (forall i o, ev ≠ Deliver k i o) →
  tasks (step env a ev) !! k = Some t.
Proof.
  intros Hk Hev. destruct ev as [d | d | v | | name | k' i o]; simpl; try done.
  - unfold refetchEffect. simpl.
    destruct d as [d | ]; [ | done ]. destruct (toDate (state a)); [ | done ].
    destruct (users (state a)); [done | ]. simpl. by apply lookup_app_l_Some.
  - unfold refetchEffect. simpl.
    destruct (fromDate (state a)); [ | done ]. destruct d as [d | ]; [ | done ].
    destruct (users (state a)); [done | ]. simpl. by apply lookup_app_l_Some.
  - unfold handleAddUser.
    destruct (fromDate (state a)); [ | done ]. destruct (toDate (state a)); [ | done ].
    destruct (truthyStr _); [ | done ].
    destruct (fetchUserStats_start _ _ _ _) as [[r | e] | rq]; simpl; try done.
    by apply lookup_app_l_Some.
  - assert (Hne : k' ≠ k) by (intros ->; by apply (Hev i o)).
    unfold deliver. destruct (tasks a !! k') as [[name | waiting p | ] | ]; simpl; try done.
    + by rewrite list_lookup_insert_ne.
    + destruct (waiting !! i) as [[name | ] | ]; simpl; try done.
      by rewrite list_lookup_insert_ne.
Qed.

Lemma step_other_refetching (us : list UserStats) (k : nat) (answered : list nat)
    (a : App) (ev : Event) :
  (forall i o, ev ≠ Deliver k i o) →
  refetching os us k answered a → refetching os us k answered (step env a ev).
Proof.
  intros Hev (waiting & p & Htask & Hrest).
  exists waiting, p. split; [ by apply step_other_task | done ].
Qed.

(** An answer fills its position, if that is a hole. *)
Lemma deliver_refetching (us : list UserStats) (k i : nat) (answered : list nat)
    (a : App) :
  refetching os us k answered a →
  refetching os us k (i :: answered) (deliver k i (os i) a).
Proof.
  intros (waiting & p & Htask & Hc & Hlen & Hslots).
  unfold deliver. rewrite Htask.
  destruct (waiting !! i) as [[name | ] | ] eqn:Hw.
  - assert (Hk : (k < List.length (tasks a))%nat) by by apply lookup_lt_Some in Htask.
    assert (Hcase : values p !! i = Some None ∨ values p !! i ≠ Some None).
    { destruct (values p !! i) as [[r | ] | ]; [by right | by left | by right]. }
    destruct Hcase as [Hhole | Hfilled].
    + destruct (resolveElement_hole i (fetchUserStats_resume name (os i)) p Hc Hhole)
        as [Hc' Hvs].
      assert (Hi : (i < List.length us)%nat).
      { rewrite <- Hlen. by apply lookup_lt_Some in Hhole. }
      eexists _, _. simpl. split; [ by apply list_lookup_insert_eq | ].
      split; [done | ]. split; [ by rewrite Hvs, length_insert | ].
      intros j u Hu. unfold slotExact. rewrite Hvs.
      destruct (decide (j = i)) as [-> | Hji].
      * left. split; [ apply list_elem_of_here | ].
        destruct (Hslots i u Hu) as [[_ Hv] | (_ & _ & Hwu)]; [congruence | ].
        assert (name = username u) as -> by congruence.
        apply list_lookup_insert_eq. by apply lookup_lt_Some in Hhole.
      * rewrite !list_lookup_insert_ne by done.
        destruct (Hslots j u Hu) as [[Hj Hv] | (Hj & Hv & Hwj)].
        -- left. split; [ by apply list_elem_of_further | done ].
        -- right. split; [ by apply not_elem_of_cons | done ].
    + rewrite (resolveElement_filled _ _ _ Hfilled).
      eexists _, _. simpl. split; [ by apply list_lookup_insert_eq | ].
      do 2 (split; [done | ]). intros j u Hu.
      destruct (Hslots j u Hu) as [[Hj Hv] | (Hj & Hv & Hwj)].
      * left. split; [ by apply list_elem_of_further | done ].
      * right. assert (j ≠ i) by congruence.
        split; [ by apply not_elem_of_cons | ]. by rewrite list_lookup_insert_ne.
  - exists waiting, p. do 3 (split; [done | ]). intros j u Hu.
    destruct (Hslots j u Hu) as [[Hj Hv] | (Hj & Hv & Hwj)].
    + left. split; [ by apply list_elem_of_further | done ].
    + right. assert (j ≠ i) by congruence. split; [ by apply not_elem_of_cons | done ].
  - exists waiting, p. do 3 (split; [done | ]). intros j u Hu.
    destruct (Hslots j u Hu) as [[Hj Hv] | (Hj & Hv & Hwj)].
    + left. split; [ by apply list_elem_of_further | done ].
    + right. assert (j ≠ i) by congruence. split; [ by apply not_elem_of_cons | done ].
Qed.

(** An answer that is not the last one awaited does not touch the state. *)
Lemma deliver_state_pending (us : list UserStats) (k i : nat) (answered : list nat)
    (a : App) :
  refetching os us k answered a →
  i ∈ answered ∨ (List.length us <= i)%nat ∨
  (exists j u, us !! j = Some u ∧ j ≠ i ∧ j ∉ answered) →
  state (deliver k i (os i) a) = state a.
Proof.
  intros (waiting & p & Htask & Hc & Hlen & Hslots) Hwhy.
  unfold deliver. rewrite Htask.
  destruct (waiting !! i) as [[name | ] | ] eqn:Hw; [ | done | done ]. simpl.
  assert (Hcase : values p !! i = Some None ∨ values p !! i ≠ Some None).
  { destruct (values p !! i) as [[r | ] | ]; [by right | by left | by right]. }
  destruct Hcase as [Hhole | Hfilled].
  - destruct (resolveElement_hole i (fetchUserStats_resume name (os i)) p Hc Hhole)
      as [Hc' Hvs].
    assert (Hi : (i < List.length us)%nat).
    { rewrite <- Hlen. by apply lookup_lt_Some in Hhole. }
    destruct Hwhy as [Hin | [Hout | (j & u & Hu & Hji & Hj)]]; [ | lia | ].
    + apply lookup_lt_is_Some in Hi as [u Hu].
      destruct (Hslots i u Hu) as [[_ Hv] | (Hni & _)]; [congruence | done].
    + rewrite (consistent_hole _ j Hc'); [ by destruct (outcome p) | ].
      rewrite Hvs, list_lookup_insert_ne by done.
      by destruct (Hslots j u Hu) as [[Hj' _] | (_ & Hv & _)].
  - rewrite (resolveElement_filled _ _ _ Hfilled). by destruct (outcome p).
Qed.

(** The last answer awaited replaces the list by the results and clears
    the busy flag. *)
Lemma deliver_state_last (us : list UserStats) (k i : nat) (answered : list nat)
    (a : App) :
  refetching os us k answered a →
  (i < List.length us)%nat → i ∉ answered →
  (forall j, (j < List.length us)%nat → j ≠ i → j ∈ answered) →
  state (deliver k i (os i) a) = refreshReactions (Fulfilled (results os us)) (state a).
Proof.
  intros (waiting & p & Htask & Hc & Hlen & Hslots) Hi Hni Hall.
  apply lookup_lt_is_Some in Hi as [u Hu].
  destruct (Hslots i u Hu) as [[Hin _] | (_ & Hhole & Hw)]; [done | ].
  unfold deliver. rewrite Htask, Hw. simpl.
  destruct (resolveElement_hole i (fetchUserStats_resume (username u) (os i)) p Hc Hhole)
    as [[_ Hout] Hvs].
  assert (Hfull : values (resolveElement i (fetchUserStats_resume (username u) (os i)) p)
                  = Some <$> results os us).
  { rewrite Hvs. apply list_eq. intros j. unfold results.
    rewrite list_lookup_fmap, list_lookup_imap.
    destruct (decide (j = i)) as [-> | Hji].
    - rewrite Hu. simpl. apply list_lookup_insert_eq. by apply lookup_lt_Some in Hhole.
    - rewrite list_lookup_insert_ne by done.
      destruct (us !! j) as [v | ] eqn:Hv; simpl.
      + destruct (Hslots j v Hv) as [[_ Hj] | (Hj & _)]; [done | ].
        destruct Hj. apply Hall; [ by apply lookup_lt_Some in Hv | done ].
      + apply lookup_ge_None. rewrite Hlen. by apply lookup_ge_None. }
  rewrite Hfull, holes_Some, omap_id_Some in Hout.
  by rewrite (consistent_hole p i Hc Hhole), Hout.
Qed.

(** The events of a run, as far as they concern the handler [k]. *)
Lemma run_refetching (us : list UserStats) (k : nat) (evs : list Event)
    (answered : list nat) (a : App) :
  Forall (answersOf os k) evs →
  refetching os us k answered a →
  refetching os us k (answeredIn k evs ++ answered) (run env a evs).
Proof.
  intros Hevs. revert answered a.
  induction Hevs as [ | ev evs Hev _ IH]; intros answered a Ha; [done | ].
  simpl. unfold answeredIn. csimpl. fold (answeredIn k evs).
  destruct ev as [d | d | v | | name | k' i o];
    try (apply IH, step_other_refetching; [ intros; discriminate | done ]).
  destruct (decide (k' = k)) as [-> | Hk]; simpl.
  - simpl in Hev. rewrite (Hev eq_refl).
    apply (refetching_ext us k (answeredIn k evs ++ i :: answered)).
    + intros j. rewrite !elem_of_app, !elem_of_cons, elem_of_app. tauto.
    + apply IH. by apply deliver_refetching.
  - apply IH. apply (step_other_refetching us k answered a (Deliver k' i o)); [ | done ].
    intros ? ? [= ? ? ?]. done.
Qed.

End Refetch.

(** X13. A refetch among other events. Take a list of named entries and a
    range of two calendar dates, start the refetch, and let anything
    happen: names typed, users added and removed, dates picked, answers to
    other calls, answers to this refetch for all positions but one. When
    the answer for that last position arrives, the list becomes the results
    of the refetch by position, for the list as it was when the refetch
    started, and the busy flag is cleared: what was added or removed in
    between is overwritten. *)
Theorem refetch_last_answer_wins (env : Env) (os : nat -> RemoteOutcome) (a : App)
    (t1 t2 : Z) (evs : list Event) (i : nat) :
  fromDate (state a) = Some (ValidDate t1) →
  toDate (state a) = Some (ValidDate t2) →
  Forall named (users (state a)) →
  Forall (answersOf os (List.length (tasks a))) evs →
  (i < List.length (users (state a)))%nat →
  i ∉ answeredIn (List.length (tasks a)) evs →
  (forall j, (j < List.length (users (state a)))%nat → j ≠ i →
             j ∈ answeredIn (List.length (tasks a)) evs) →
  users (state (run env (refetchEffect env (state a) a)
                  (evs ++ [Deliver (List.length (tasks a)) i (os i)])))
  = results os (users (state a)) ∧
  loading (state (run env (refetchEffect env (state a) a)
                    (evs ++ [Deliver (List.length (tasks a)) i (os i)])))
  = false.
Proof.
  intros Hfrom Hto Hnamed Hevs Hi Hni Hall.
  assert (Hne : users (state a) ≠ []).
  { intros H. rewrite H in Hi. simpl in Hi. lia. }
  destruct (refetchEffect_refetching env os t1 t2 a Hfrom Hto Hne Hnamed) as [Hstart _].
  pose proof (run_refetching env os _ _ evs [] _ Hevs Hstart) as Hrun.
  rewrite app_nil_r in Hrun.
  unfold run at 1 2. rewrite !fold_left_app. simpl.
  fold (run env (refetchEffect env (state a) a) evs).
  by rewrite (deliver_state_last os _ _ i _ _ Hrun Hi Hni Hall).
Qed.

Lemma refetch_last_answer_wins_witness :
  users (state (run noEnv (refetchEffect noEnv (state aliceAndBob) aliceAndBob)
                  (whileRefetching ++ [Deliver 0 0 (found 5)])))
  = results aliceFoundBobNot (users (state aliceAndBob)) ∧
  loading (state (run noEnv (refetchEffect noEnv (state aliceAndBob) aliceAndBob)
                    (whileRefetching ++ [Deliver 0 0 (found 5)])))
  = false.
Proof.
  apply (refetch_last_answer_wins noEnv aliceFoundBobNot aliceAndBob
           1704067200000 1706659200000 whileRefetching 0).
  - reflexivity.
  - reflexivity.
  - apply Forall_cons. split; [discriminate | ]. apply Forall_singleton. discriminate.
  - unfold whileRefetching. repeat (apply Forall_cons; split); simpl; try done.
  - simpl. lia.
  - simpl. intros H. apply list_elem_of_singleton in H. discriminate H.
  - simpl. intros j Hj Hj0. assert (j = 1%nat) as -> by lia. apply list_elem_of_here.
Defined.

(** Carol, added while the refetch was under way, is gone after it. *)
Example refetch_drops_carol :
  username <$> users (state (run noEnv (refetchEffect noEnv (state aliceAndBob) aliceAndBob)
                               whileRefetching))
  = ["alice"; "bob"; "carol"] ∧
  username <$> users (state (run noEnv (refetchEffect noEnv (state aliceAndBob) aliceAndBob)
                               (whileRefetching ++ [Deliver 0 0 (found 5)])))
  = ["alice"; "bob"].
Proof. split; reflexivity. Qed.

Lemma schedule_pending (os : nat -> RemoteOutcome) (us : list UserStats) (k j : nat)
    (u : UserStats) (schedule answered : list nat) (a : App) :
  us !! j = Some u → j ∉ answered → j ∉ schedule →
  refetching os us k answered a →
  exists answered',
    (forall x, x ∈ answered' ↔ x ∈ schedule ∨ x ∈ answered) ∧
    refetching os us k answered' (fold_left (fun acc i => deliver k i (os i) acc) schedule a) ∧
    state (fold_left (fun acc i => deliver k i (os i) acc) schedule a) = state a.
Proof.
  intros Hu. revert answered a.
  induction schedule as [ | i schedule IH]; intros answered a Hj Hsched Ha.
  - exists answered. split; [ | done ]. intros x. rewrite elem_of_nil. tauto.
  - apply not_elem_of_cons in Hsched as [Hji Hsched]. simpl.
    destruct (IH (i :: answered) (deliver k i (os i) a)) as (answered' & Hin & Hinv & Hstate).
    + by apply not_elem_of_cons.
    + done.
    + by apply deliver_refetching.
    + exists answered'. split; [ | split; [done | ] ].
      * intros x. rewrite Hin, !elem_of_cons. tauto.
      * rewrite Hstate. apply (deliver_state_pending os us k i answered a Ha).
        right. right. by exists j, u.
Qed.

(** X14. As long as the answer for one position of the refetch is missing,
    the answers that have arrived show nowhere: the list is the one from
    before the refetch and the busy flag is set. *)
Theorem refreshAll_pending (env : Env) (os : nat -> RemoteOutcome)
    (schedule : list nat) (a : App) (t1 t2 : Z) (j : nat) :
  fromDate (state a) = Some (ValidDate t1) →
  toDate (state a) = Some (ValidDate t2) →
  Forall named (users (state a)) →
  (j < List.length (users (state a)))%nat → j ∉ schedule →
  state (refreshAll env os schedule a) = setLoading true (state a).
Proof.
  intros Hfrom Hto Hnamed Hj Hsched.
  assert (Hne : users (state a) ≠ []).
  { intros H. rewrite H in Hj. simpl in Hj. lia. }
  destruct (refetchEffect_refetching env os t1 t2 a Hfrom Hto Hne Hnamed) as [Hstart Hstate].
  apply lookup_lt_is_Some in Hj as [u Hu].
  destruct (schedule_pending os _ _ j u schedule [] _ Hu (not_elem_of_nil j) Hsched Hstart)
    as (_ & _ & _ & Hsame).
  unfold refreshAll. by rewrite Hsame.
Qed.

Lemma refreshAll_pending_witness :
  state (refreshAll noEnv aliceFoundBobNot [1]%nat aliceAndBob)
  = setLoading true (state aliceAndBob).
Proof.
  apply (refreshAll_pending noEnv aliceFoundBobNot [1]%nat aliceAndBob
           1704067200000 1706659200000 0).
  - reflexivity.
  - reflexivity.
  - apply Forall_cons. split; [discriminate | ]. apply Forall_singleton. discriminate.
  - simpl. lia.
  - intros H. apply list_elem_of_singleton in H. discriminate H.
Defined.

(** What the [try] returns has an error or a stats field. *)
Lemma fetchUserStats_resume_fetched (name : string) (o : RemoteOutcome) :
  error (fetchUserStats_resume name o) ≠ None ∨ stats (fetchUserStats_resume name o) ≠ None.
Proof.
  destruct (fetchUserStats_resume_cases name o)
    as [-> | [-> | (? & ? & ? & ? & ? & _ & _ & _ & _ & _ & _ & _ & ->)]];
    [by left | by left | by right].
Qed.

(** X15. When the answers for all positions have arrived, in whatever
    order, the refetch has cleared the busy flag, left the range and the
    text field as they were, and replaced the list by the results; none of
    its entries is left without both an error and a stats field. *)
Theorem refreshAll_settles (env : Env) (os : nat -> RemoteOutcome)
    (schedule : list nat) (a : App) (t1 t2 : Z) :
  fromDate (state a) = Some (ValidDate t1) →
  toDate (state a) = Some (ValidDate t2) →
  Forall named (users (state a)) → users (state a) ≠ [] →
  schedule ≡ₚ seq 0 (List.length (users (state a))) →
  state (refreshAll env os schedule a)
  = setLoading false (setUsers (fun _ => results os (users (state a))) (state a)) ∧
  Forall (fun u => error u ≠ None ∨ stats u ≠ None)
    (users (state (refreshAll env os schedule a))).
Proof.
  intros Hfrom Hto Hnamed Hne Hperm.
  assert (Hstate : state (refreshAll env os schedule a)
            = setLoading false (setUsers (fun _ => results os (users (state a))) (state a))).
  { destruct (refetchEffect_refetching env os t1 t2 a Hfrom Hto Hne Hnamed)
      as [Hstart Hstate].
    assert (Hnodup : NoDup schedule) by (rewrite Hperm; apply NoDup_seq).
    destruct (exists_last (l := schedule)) as (pre & i & ->).
    { intros ->. apply Permutation_nil_l in Hperm.
      destruct (users (state a)); [done | discriminate Hperm]. }
    apply NoDup_app in Hnodup as (_ & Hdisjoint & _).
    assert (Hi : (i < List.length (users (state a)))%nat).
    { assert (Hin : i ∈ seq 0 (List.length (users (state a)))).
      { rewrite <- Hperm. apply elem_of_app. right. apply list_elem_of_here. }
      apply elem_of_seq in Hin. lia. }
    assert (Hpre : i ∉ pre).
    { intros Hin. apply (Hdisjoint i Hin), list_elem_of_here. }
    destruct (lookup_lt_is_Some_2 _ _ Hi) as [u Hu].
    destruct (schedule_pending os _ _ i u pre [] _ Hu (not_elem_of_nil i) Hpre Hstart)
      as (answered & Hanswered & Hinv & Hsame).
    unfold refreshAll. rewrite fold_left_app. simpl.
    rewrite (deliver_state_last os _ _ i answered _ Hinv Hi).
    - rewrite Hsame, Hstate. reflexivity.
    - rewrite Hanswered, elem_of_nil. tauto.
    - intros j Hj Hji. apply Hanswered. left.
      assert (Hin : j ∈ pre ++ [i]) by (rewrite Hperm; apply elem_of_seq; lia).
      apply elem_of_app in Hin as [Hin | Hin]; [done | ].
      by apply list_elem_of_singleton in Hin. }
  split; [done | ]. rewrite Hstate. simpl. unfold results.
  apply Forall_forall. intros r Hr.
  apply list_elem_of_lookup in Hr as [i Hr]. rewrite list_lookup_imap in Hr.
  destruct (users (state a) !! i); [ | done ]. simpl in Hr. injection Hr as <-.
  apply fetchUserStats_resume_fetched.
Qed.

Lemma refreshAll_settles_witness :
  state (refreshAll noEnv aliceFoundBobNot [1; 0]%nat aliceAndBob)
  = setLoading false
      (setUsers (fun _ => results aliceFoundBobNot (users (state aliceAndBob)))
         (state aliceAndBob)) ∧
  Forall (fun u => error u ≠ None ∨ stats u ≠ None)
    (users (state (refreshAll noEnv aliceFoundBobNot [1; 0]%nat aliceAndBob))).
Proof.
  apply (refreshAll_settles noEnv aliceFoundBobNot [1; 0]%nat aliceAndBob
           1704067200000 1706659200000).
  - reflexivity.
  - reflexivity.
  - apply Forall_cons. split; [discriminate | ]. apply Forall_singleton. discriminate.
  - discriminate.
  - apply perm_swap.
Defined.

Lemma requestsOf_named env (t1 t2 : Z) (us : list UserStats) :
  Forall named us →
  login <$> requestsOf
              (map (fun u => fetchUserStats_start env (username u)
                               (Some (ValidDate t1)) (Some (ValidDate t2))) us)
  = username <$> us.
Proof.
  unfold requestsOf. induction 1 as [ | u us Hu _ IH]; [done | ]. csimpl.
  destruct (fetchUserStats_start_suspends env _ t1 t2 Hu) as (rq & -> & Hlogin).
  csimpl. by rewrite IH, Hlogin.
Qed.

(** X16. The refetch of a list of named entries, with a range of two
    calendar dates, sends one request for each entry, in the order of the
    list, each for the username of its entry, before any answer is awaited;
    it leaves one handler waiting. *)
Theorem refetchEffect_requests env (a : App) (t1 t2 : Z) :
  fromDate (state a) = Some (ValidDate t1) →
  toDate (state a) = Some (ValidDate t2) →
  Forall named (users (state a)) → users (state a) ≠ [] →
  exists rqs,
    sent (refetchEffect env (state a) a) = sent a ++ rqs ∧
    login <$> rqs = username <$> users (state a) ∧
    List.length (tasks (refetchEffect env (state a) a)) = S (List.length (tasks a)).
Proof.
  intros Hfrom Hto Hnamed Hne. unfold refetchEffect. rewrite Hfrom, Hto.
  destruct (users (state a)) as [ | u0 rest] eqn:Hus; [done | ].
  rewrite <- Hus in *. eexists. simpl. split; [done | ].
  split; [ by apply requestsOf_named | ]. rewrite length_app. simpl. lia.
Qed.

Lemma refetchEffect_requests_witness :
  exists rqs,
    sent (refetchEffect noEnv (state aliceAndBob) aliceAndBob) = sent aliceAndBob ++ rqs ∧
    login <$> rqs = username <$> users (state aliceAndBob) ∧
    List.length (tasks (refetchEffect noEnv (state aliceAndBob) aliceAndBob))
    = S (List.length (tasks aliceAndBob)).
Proof.
  apply (refetchEffect_requests noEnv aliceAndBob 1704067200000 1706659200000).
  - reflexivity.
  - reflexivity.
  - apply Forall_cons. split; [discriminate | ]. apply Forall_singleton. discriminate.
  - discriminate.
Defined.

(** ** From the seed list to the first results *)

Lemma run_delivers env (os : nat -> RemoteOutcome) (k : nat) (schedule : list nat)
    (a : App) :
  run env a (map (fun i => Deliver k i (os i)) schedule)
  = fold_left (fun acc i => deliver k i (os i) acc) schedule a.
Proof.
  revert a. induction schedule as [ | i schedule IH]; intros a; [done | ]. simpl. apply IH.
Qed.

Lemma run_app env (a : App) (evs1 evs2 : list Event) :
  run env a (evs1 ++ evs2) = run env (run env a evs1) evs2.
Proof. apply fold_left_app. Qed.

Lemma mount_seeded env :
  mount env = {| state := setUsers (fun _ => map unfetched (envUsers env)) initialState;
                 tasks := []; sent := [] |}.
Proof.
  unfold mount, refetchEffect. simpl. f_equal. unfold seedEffect.
  destruct (decide _) as [Hlen | Hlen].
  - unfold setUsers, seedUpdater. simpl. do 2 f_equal. apply filter_all.
    apply Forall_forall. intros name _. apply not_elem_of_nil.
  - destruct (envUsers env); [done | simpl in Hlen; lia].
Qed.

(** X17. From the first render to the first results: with a seed list
    configured, once the two dates of the range are picked (calendar dates,
    From first) and the answers have arrived in whatever order, the list
    holds, for each configured name in the order of the configuration, what
    [fetchUserStats] makes of the answer for that name. *)
Theorem seed_then_refetch (env : Env) (os : nat -> RemoteOutcome)
    (schedule : list nat) (t1 t2 : Z) :
  schedule ≡ₚ seq 0 (List.length (envUsers env)) →
  users (state (run env (mount env)
                  ([ChangeFrom (Some (ValidDate t1)); ChangeTo (Some (ValidDate t2))]
                   ++ map (fun i => Deliver 0 i (os i)) schedule)))
  = imap (fun i name => fetchUserStats_resume name (os i)) (envUsers env).
Proof.
  intros Hperm.
  set (a1 := withState (setToDate (Some (ValidDate t2)))
               (withState (setFromDate (Some (ValidDate t1)))
                  {| state := setUsers (fun _ => map unfetched (envUsers env)) initialState;
                     tasks := []; sent := [] |})).
  assert (Hpicked : run env (mount env)
                      [ChangeFrom (Some (ValidDate t1)); ChangeTo (Some (ValidDate t2))]
                    = refetchEffect env (state a1) a1).
  { by rewrite mount_seeded. }
  assert (Husers : users (state a1) = map unfetched (envUsers env)) by done.
  rewrite run_app, Hpicked, run_delivers.
  destruct (envUsers env) as [ | n0 names] eqn:Hnames.
  - apply Permutation_nil_r in Hperm as ->. done.
  - rewrite <- Hnames in *.
    assert (Hne : users (state a1) ≠ []) by (rewrite Husers, Hnames; discriminate).
    pose proof (refetchEffect_refreshing env os t1 t2 a1 eq_refl eq_refl Hne) as Hstart.
    destruct (schedule_refreshing env os t1 t2 _ _ schedule _ _ Hstart)
      as (answered & _ & Hsched & Hfinal).
    assert (Hcover : forall i, (i < List.length (users (state a1)))%nat → i ∈ answered).
    { intros i Hi. apply Hsched. rewrite Hperm. apply elem_of_seq.
      rewrite Husers, length_map in Hi. lia. }
    etrans; [ exact (refreshing_done env os t1 t2 _ _ _ _ Hfinal Hcover) | ].
    rewrite Husers. change (map unfetched ?l) with (unfetched <$> l).
    rewrite imap_fmap. apply imap_ext. intros i name Hname. simpl.
    unfold fetchResult. simpl.
    assert (Hnamed : name ≠ "").
    { pose proof (mount_named env) as [Hall _]. rewrite mount_seeded in Hall. simpl in Hall.
      apply list_elem_of_lookup_2 in Hname.
      assert (Hin : unfetched name ∈ map unfetched (envUsers env)).
      { by apply list_elem_of_In, in_map, list_elem_of_In. }
      by apply (proj1 (Forall_forall _ _) Hall) in Hin. }
    by destruct (fetchUserStats_start_suspends env name t1 t2 Hnamed) as (rq & -> & _).
Qed.

Lemma seed_then_refetch_witness :
  users (state (run aliceBobEnv (mount aliceBobEnv)
                  ([ChangeFrom (Some (ValidDate 1704067200000));
                    ChangeTo (Some (ValidDate 1706659200000))]
                   ++ map (fun i => Deliver 0 i (aliceFoundBobNot i)) [1; 0]%nat)))
  = imap (fun i name => fetchUserStats_resume name (aliceFoundBobNot i))
      (envUsers aliceBobEnv).
Proof.
  apply (seed_then_refetch aliceBobEnv aliceFoundBobNot [1; 0]%nat
           1704067200000 1706659200000).
  apply perm_swap.
Defined.

(** ** Two adds under way *)

Lemma deliver_adding (k i : nat) (o : RemoteOutcome) (a : App) (name : string) :
  tasks a !! k = Some (Adding name) →
  deliver k i o a =
    {| state := handleAddUser_finish name (fetchUserStats_resume name o) (state a);
       tasks := <[k := Finished]> (tasks a);
       sent := sent a |}.
Proof. intros Hk. unfold deliver. by rewrite Hk. Qed.

(** X18. The handler of the add does not look at the busy flag (the Enter
    key reaches it while the button is disabled). Run twice for the same
    new name before any answer, it sends two requests; the answer that
    arrives first is the one appended, the other is dropped, so the name is
    in the list once; and the first answer clears the busy flag while the
    second call is still waiting. *)
Theorem addUser_twice_under_way env (o1 o2 : RemoteOutcome) (a : App) (t1 t2 : Z) :
  usernameInput (state a) ≠ "" →
  fromDate (state a) = Some (ValidDate t1) →
  toDate (state a) = Some (ValidDate t2) →
  ¬ Exists (sameUser (usernameInput (state a))) (users (state a)) →
  users (state (run env a [AddUser; AddUser; Deliver (List.length (tasks a)) 0 o1;
                           Deliver (S (List.length (tasks a))) 0 o2]))
  = users (state a) ++ [fetchUserStats_resume (usernameInput (state a)) o1] ∧
  users (state (run env a [AddUser; AddUser; Deliver (S (List.length (tasks a))) 0 o2;
                           Deliver (List.length (tasks a)) 0 o1]))
  = users (state a) ++ [fetchUserStats_resume (usernameInput (state a)) o2] ∧
  loading (state (run env a [AddUser; AddUser; Deliver (List.length (tasks a)) 0 o1]))
  = false ∧
  tasks (run env a [AddUser; AddUser; Deliver (List.length (tasks a)) 0 o1])
    !! S (List.length (tasks a)) = Some (Adding (usernameInput (state a))) ∧
  exists rq rq', sent (run env a [AddUser; AddUser]) = sent a ++ [rq; rq'] ∧
                 login rq = usernameInput (state a) ∧ login rq' = usernameInput (state a).
Proof.
  intros Hname Hfrom Hto Habsent.
  set (name := usernameInput (state a)) in *. set (k := List.length (tasks a)).
  destruct (handleAddUser_sends env a t1 t2 Hname Hfrom Hto) as (rq & Hlogin & H1).
  set (a1 := handleAddUser env a) in *.
  assert (Hs1 : state a1 = setLoading true (state a)) by by rewrite H1.
  destruct (handleAddUser_sends env a1 t1 t2) as (rq' & Hlogin' & H2);
    [ by rewrite Hs1 .. | ].
  rewrite Hs1 in H2, Hlogin'. simpl in H2, Hlogin'. fold name in H1, H2, Hlogin, Hlogin'.
  assert (Htasks : tasks (handleAddUser env a1) = tasks a ++ [Adding name; Adding name]).
  { rewrite H2, H1. simpl. by rewrite <- app_assoc. }
  assert (Hk : tasks (handleAddUser env a1) !! k = Some (Adding name)).
  { rewrite Htasks. by rewrite list_lookup_middle. }
  assert (Hk1 : tasks (handleAddUser env a1) !! S k = Some (Adding name)).
  { rewrite Htasks. rewrite lookup_app_r by (unfold k; lia).
    by replace (S k - List.length (tasks a))%nat with 1%nat by (unfold k; lia). }
  assert (Hpresent : forall r prev, username r = name →
            Exists (sameUser name) (prev ++ [r])).
  { intros r prev Hr. apply Exists_app. right. apply Exists_cons_hd.
    unfold sameUser. by rewrite Hr. }
  unfold run. simpl. fold a1.
  split; [ | split; [ | split; [ | split ] ] ].
  - rewrite (deliver_adding k 0 o1 _ name Hk).
    rewrite (deliver_adding (S k) 0 o2 _ name).
    2: { simpl. by rewrite list_lookup_insert_ne by lia. }
    simpl. rewrite H2. simpl. rewrite (addUpdater_absent name _ _ Habsent).
    apply addUpdater_present, Hpresent, fetchUserStats_resume_username.
  - rewrite (deliver_adding (S k) 0 o2 _ name Hk1).
    rewrite (deliver_adding k 0 o1 _ name).
    2: { simpl. by rewrite list_lookup_insert_ne by lia. }
    simpl. rewrite H2. simpl. rewrite (addUpdater_absent name _ _ Habsent).
    apply addUpdater_present, Hpresent, fetchUserStats_resume_username.
  - by rewrite (deliver_adding k 0 o1 _ name Hk).
  - rewrite (deliver_adding k 0 o1 _ name Hk). simpl.
    by rewrite list_lookup_insert_ne by lia.
  - exists rq, rq'. rewrite H2, H1. simpl. by rewrite <- app_assoc.
Qed.

Lemma addUser_twice_under_way_witness :
  users (state (run noEnv carolNew [AddUser; AddUser; Deliver 0 0 (found 3);
                                    Deliver 1 0 nullUser]))
  = users (state carolNew) ++ [fetchUserStats_resume "carol" (found 3)] ∧
  users (state (run noEnv carolNew [AddUser; AddUser; Deliver 1 0 nullUser;
                                    Deliver 0 0 (found 3)]))
  = users (state carolNew) ++ [fetchUserStats_resume "carol" nullUser] ∧
  loading (state (run noEnv carolNew [AddUser; AddUser; Deliver 0 0 (found 3)])) = false ∧
  tasks (run noEnv carolNew [AddUser; AddUser; Deliver 0 0 (found 3)]) !! 1%nat
  = Some (Adding "carol") ∧
  exists rq rq', sent (run noEnv carolNew [AddUser; AddUser]) = sent carolNew ++ [rq; rq'] ∧
                 login rq = "carol" ∧ login rq' = "carol".
Proof.
  apply (addUser_twice_under_way noEnv (found 3) nullUser carolNew
           1704067200000 1706659200000).
  - discriminate.
  - reflexivity.
  - reflexivity.
  - intros H. apply Exists_cons in H as [H | H]; [discriminate H | ].
    apply Exists_cons in H as [H | H]; [discriminate H | ]. by apply Exists_nil in H.
Defined.

(** ** The keys of the cards *)

Lemma indexString_digit (idx : nat) :
  (idx < 10)%nat → indexString idx = String (ascii_of_nat (48 + idx)) "".
Proof.
  intros H. do 10 (destruct idx as [ | idx]; [reflexivity | ]). lia.
Qed.

Lemma append_last_inj (a b : string) (c d : ascii) :
  a +:+ String c "" = b +:+ String d "" → c = d.
Proof.
  revert b. induction a as [ | x a IH]; intros [ | y b]; rewrite ?append_cons, ?append_nil.
  - by intros [= ->].
  - intros [= _ H]. destruct b; discriminate H.
  - intros [= _ H]. destruct a; discriminate H.
  - intros [= _ H]. by apply (IH b).
Qed.

(** X19. The keys of the cards of a list of at most ten entries differ from
    each other, whatever the usernames: a key ends in the one digit of its
    position. *)
Theorem cardKeys_distinct (l : list UserStats) :
  (List.length l <= 10)%nat → NoDup (cardKeys l).
Proof.
  intros Hlen. apply NoDup_alt. intros i j key Hi Hj.
  unfold cardKeys in Hi, Hj. rewrite list_lookup_imap in Hi, Hj.
  destruct (l !! i) as [u | ] eqn:Hu; [ | done ].
  destruct (l !! j) as [v | ] eqn:Hv; [ | done ].
  apply lookup_lt_Some in Hu, Hv. simpl in Hi, Hj. injection Hi as <-. injection Hj as Hj.
  unfold cardKey in Hj. rewrite !indexString_digit in Hj by lia.
  apply append_last_inj in Hj.
  apply (f_equal nat_of_ascii) in Hj. rewrite !nat_ascii_embedding in Hj by lia. lia.
Qed.

Lemma cardKeys_distinct_witness : NoDup (cardKeys (users (state bobAgain))).
Proof.
  apply (cardKeys_distinct (users (state bobAgain))). simpl. lia.
Defined.

(** From eleven entries on, two cards of different names can have one key. *)
Example cardKeys_collide :
  uniqueUsers elevenUsers ∧
  cardKeys elevenUsers !! 0%nat = Some "a10" ∧
  cardKeys elevenUsers !! 10%nat = Some "a10".
Proof.
  split; [ | split; reflexivity ].
  unfold uniqueUsers. apply (bool_decide_unpack (NoDup _)). by vm_compute.
Qed.
